(** * icloud-photos-sync: error types, error handler, iCloud authentication
      and library lock

    A shallow embedding of
    - [app/src/app/error-types.ts]          (module [ErrorTypes]),
    - [app/src/app/event/error-handler.ts]  (module [ErrorHandler]),
    - [app/src/lib/icloud/icloud.ts]        (module [ICloud]),
    - the library lock and token flow of [app/src/app/icloud-app.ts]
      (module [ICloudApp]),
    together with the properties the specification states about them. *)

From stdpp Require Import gmap strings list fin_maps pretty.
From Stdlib Require Import ZArith.

Local Open Scope string_scope.
Local Open Scope list_scope.

(** ** JavaScript values and the error classes of [error-types.ts] *)

Module ErrorTypes.

(** [export type Severity = `WARN` | `FATAL`] *)
Inductive Severity : Type := WARN | FATAL.

Definition Severity_eqb (a b : Severity) : bool :=
  match a, b with
  | WARN, WARN | FATAL, FATAL => true
  | _, _ => false
  end.

Definition Severity_to_string (s : Severity) : string :=
  match s with WARN => "WARN" | FATAL => "FATAL" end.

(** The classes declared in [error-types.ts]: [iCPSError] and the classes
    extending it. *)
Inductive ErrorClass : Type :=
  | Class_iCPSError
  | Class_InterruptError
  | Class_iCloudError
  | Class_iCloudWarning
  | Class_iCloudAuthError
  | Class_LibraryError
  | Class_LibraryWarning
  | Class_MFAWarning
  | Class_TokenError
  | Class_SyncError
  | Class_SyncWarning
  | Class_ArchiveError
  | Class_ArchiveWarning
  | Class_DaemonAppError.

Definition ErrorClass_eqb (a b : ErrorClass) : bool :=
  match a, b with
  | Class_iCPSError, Class_iCPSError
  | Class_InterruptError, Class_InterruptError
  | Class_iCloudError, Class_iCloudError
  | Class_iCloudWarning, Class_iCloudWarning
  | Class_iCloudAuthError, Class_iCloudAuthError
  | Class_LibraryError, Class_LibraryError
  | Class_LibraryWarning, Class_LibraryWarning
  | Class_MFAWarning, Class_MFAWarning
  | Class_TokenError, Class_TokenError
  | Class_SyncError, Class_SyncError
  | Class_SyncWarning, Class_SyncWarning
  | Class_ArchiveError, Class_ArchiveError
  | Class_ArchiveWarning, Class_ArchiveWarning
  | Class_DaemonAppError, Class_DaemonAppError => true
  | _, _ => false
  end.

(** [errorClass.name] *)
Definition ErrorClass_name (c : ErrorClass) : string :=
  match c with
  | Class_iCPSError => "iCPSError"
  | Class_InterruptError => "InterruptError"
  | Class_iCloudError => "iCloudError"
  | Class_iCloudWarning => "iCloudWarning"
  | Class_iCloudAuthError => "iCloudAuthError"
  | Class_LibraryError => "LibraryError"
  | Class_LibraryWarning => "LibraryWarning"
  | Class_MFAWarning => "MFAWarning"
  | Class_TokenError => "TokenError"
  | Class_SyncError => "SyncError"
  | Class_SyncWarning => "SyncWarning"
  | Class_ArchiveError => "ArchiveError"
  | Class_ArchiveWarning => "ArchiveWarning"
  | Class_DaemonAppError => "DaemonAppError"
  end.

(** An HTTP response as the axios client hands it to the code: the status
    code, the headers, and the two fields of the body that [icloud.ts]
    reads ([data.trustedPhoneNumber.numberWithDialCode] and
    [data.trustedDeviceCount]); [None] is a field that is [undefined]. *)
Record Response : Type := mkResponse {
  status : Z;
  headers : gmap string string;
  data_trustedPhoneNumber : option string;
  data_trustedDeviceCount : option Z;
}.

(** Values of type [unknown]: the primitives, plain objects, HTTP responses
    (they are stored in error contexts) and the instances of [Error].
    An [Error] is either not an [iCPSError] ([PlainError], and [AxiosError]
    with its optional [response] property) or an instance of [iCPSError]
    or of one of its subclasses. *)
#[warnings="-register-all"]
Inductive Value : Type :=
  | VUndefined
  | VNull
  | VBool (b : bool)
  | VNumber (n : Z)
  | VString (s : string)
  | VObject (fields : gmap string Value)
  | VResponse (r : Response)
  | VError (e : JSError)
with JSError : Type :=
  | PlainError (name message : string)
  | AxiosError (message : string) (response : option Response)
  | ICPS (e : iCPSError)
with iCPSError : Type :=
  | mkiCPSError (cls : ErrorClass) (message : string) (sev : Severity)
                (cause : option JSError) (context : gmap string Value).

Definition cls (e : iCPSError) : ErrorClass :=
  match e with mkiCPSError c _ _ _ _ => c end.
Definition message (e : iCPSError) : string :=
  match e with mkiCPSError _ m _ _ _ => m end.
Definition sev (e : iCPSError) : Severity :=
  match e with mkiCPSError _ _ s _ _ => s end.
Definition cause (e : iCPSError) : option JSError :=
  match e with mkiCPSError _ _ _ c _ => c end.
Definition context (e : iCPSError) : gmap string Value :=
  match e with mkiCPSError _ _ _ _ x => x end.

(** [this.name], set by the constructor to [errorClass.name]. *)
Definition name (e : iCPSError) : string := ErrorClass_name (cls e).

(** [new iCPSError(errorClass, message, sev)]: no cause, [context = {}]. *)
Definition new_iCPSError (errorClass : ErrorClass) (msg : string)
    (s : Severity) : iCPSError :=
  mkiCPSError errorClass msg s None ∅.

(** [addCause(err)]: [this.cause = err; return this]. *)
Definition addCause (e : iCPSError) (err : JSError) : iCPSError :=
  mkiCPSError (cls e) (message e) (sev e) (Some err) (context e).

(** [addContext(key, ctx)]: [this.context[key] = ctx; return this].
    [context] holds the own properties of [this.context], an object the
    class creates with the literal [{}].  The assignment overwrites the
    own property [key] or creates it, with one exception: an object that
    has no own property [__proto__] takes the assignment to [__proto__]
    with the setter it inherits from [Object.prototype], which stores no
    own property (it replaces the prototype of the object when [ctx] is an
    object or [null], and does nothing otherwise).  The prototype of the
    context is no part of the model. *)
Definition addContext (e : iCPSError) (key : string) (ctx : Value) : iCPSError :=
  if String.eqb key "__proto__"
     && match context e !! key with Some _ => false | None => true end
  then e
  else mkiCPSError (cls e) (message e) (sev e) (cause e) (<[key := ctx]> (context e)).

(** [message] of any [Error]. *)
Definition JSError_message (e : JSError) : string :=
  match e with
  | PlainError _ m => m
  | AxiosError m _ => m
  | ICPS i => message i
  end.

(** [getDescription()]: the description of this error followed by the
    descriptions of its chain of causes. *)
Fixpoint getDescription (e : iCPSError) : string :=
  match e with
  | mkiCPSError c m s cs _ =>
      let desc := ErrorClass_name c +:+ " (" +:+ Severity_to_string s +:+ "): " +:+ m in
      match cs with
      | None => desc
      | Some (ICPS i) => desc +:+ " caused by " +:+ getDescription i
      | Some (PlainError _ m') => desc +:+ " caused by " +:+ m'
      | Some (AxiosError m' _) => desc +:+ " caused by " +:+ m'
      end
  end.

(** [getContext()]: [{...this.context, ...this.cause.getContext()}] when the
    cause is an [iCPSError] (the keys of the cause win), else [this.context]. *)
Fixpoint getContext (e : iCPSError) : gmap string Value :=
  match e with
  | mkiCPSError _ _ _ cs ctx =>
      match cs with
      | Some (ICPS i) => getContext i ∪ ctx
      | _ => ctx
      end
  end.

(** The subclasses; each constructor fixes the class and the severity. *)
Definition InterruptError (msg : string) : iCPSError :=
  new_iCPSError Class_InterruptError ("Operation interrupted: " +:+ msg) FATAL.
Definition iCloudError (c : string) : iCPSError :=
  new_iCPSError Class_iCloudError c FATAL.
Definition iCloudWarning (c : string) : iCPSError :=
  new_iCPSError Class_iCloudWarning c WARN.
Definition iCloudAuthError (c : string) : iCPSError :=
  new_iCPSError Class_iCloudAuthError c FATAL.
Definition LibraryError (c : string) : iCPSError :=
  new_iCPSError Class_LibraryError c FATAL.
Definition LibraryWarning (c : string) : iCPSError :=
  new_iCPSError Class_LibraryWarning c WARN.
Definition MFAWarning (c : string) : iCPSError :=
  new_iCPSError Class_MFAWarning c WARN.
Definition TokenError (c : string) : iCPSError :=
  new_iCPSError Class_TokenError c FATAL.
Definition SyncError (c : string) : iCPSError :=
  new_iCPSError Class_SyncError c FATAL.
Definition SyncWarning (c : string) : iCPSError :=
  new_iCPSError Class_SyncWarning c WARN.
Definition ArchiveError (c : string) : iCPSError :=
  new_iCPSError Class_ArchiveError c FATAL.
Definition ArchiveWarning (c : string) : iCPSError :=
  new_iCPSError Class_ArchiveWarning c WARN.
Definition DaemonAppError (c : JSError) : iCPSError :=
  addCause (new_iCPSError Class_DaemonAppError "Scheduled sync failed" FATAL) c.

(** [err instanceof Error] *)
Definition instanceof_Error (err : Value) : option JSError :=
  match err with VError e => Some e | _ => None end.

(** [err instanceof iCPSError]; when it holds the object is returned, so
    that its fields can be read as the code does after the test. *)
Definition instanceof_iCPSError (err : Value) : option iCPSError :=
  match err with VError (ICPS e) => Some e | _ => None end.

(** [e instanceof InterruptError] for an [iCPSError]: no class of the file
    extends [InterruptError]. *)
Definition instanceof_InterruptError (e : iCPSError) : bool :=
  ErrorClass_eqb (cls e) Class_InterruptError.

(** [static fatalError(err: unknown): boolean]
    [return !(err instanceof iCPSError && err.sev === `WARN`)] *)
Definition fatalError (err : Value) : bool :=
  negb match instanceof_iCPSError err with
       | Some e => Severity_eqb (sev e) WARN
       | None => false
       end.

(** [static toiCPSError(err: unknown): iCPSError] *)
Definition toiCPSError (err : Value) : iCPSError :=
  match instanceof_iCPSError err with
  | Some e => e
  | None =>
      let _err := new_iCPSError Class_iCPSError "Unknown error" FATAL in
      match instanceof_Error err with
      | Some e => addCause _err e
      | None => addContext _err "unknownErrorObject" err
      end
  end.

End ErrorTypes.

(** ** Computations that change a state and may throw

    The methods below are [async] functions that mutate [this] (or the
    file system) and throw; they are written in a state monad with
    exceptions.  What is thrown in the modelled code is always an
    instance of [Error]. *)

Module Eff.
Import ErrorTypes.

Inductive Outcome (A : Type) : Type :=
  | Returned (a : A)
  | Thrown (e : JSError).
Arguments Returned {A} a.
Arguments Thrown {A} e.

Definition M (S A : Type) : Type := S -> Outcome A * S.

Definition ret {S A} (a : A) : M S A := fun s => (Returned a, s).

Definition throw {S A} (e : JSError) : M S A := fun s => (Thrown e, s).

Definition bind {S A B} (m : M S A) (k : A -> M S B) : M S B :=
  fun s =>
    match m s with
    | (Returned a, s') => k a s'
    | (Thrown e, s') => (Thrown e, s')
    end.

Definition get {S} : M S S := fun s => (Returned s, s).

Definition modify {S} (f : S -> S) : M S unit := fun s => (Returned tt, f s).

(** [try { m } catch (err) { h err }] *)
Definition try_catch {S A} (m : M S A) (h : JSError -> M S A) : M S A :=
  fun s =>
    match m s with
    | (Returned a, s') => (Returned a, s')
    | (Thrown e, s') => h e s'
    end.

(** [try { m } finally { f }] where [f] completes normally or throws:
    an exception of [f] replaces the outcome of [m]. *)
Definition try_finally {S A} (m : M S A) (f : M S unit) : M S A :=
  fun s =>
    match m s with
    | (o, s') =>
        match f s' with
        | (Returned _, s'') => (o, s'')
        | (Thrown e, s'') => (Thrown e, s'')
        end
    end.

(** [try { m } finally { return r }]: the [return] of the [finally] block
    replaces the outcome of [m], a pending exception included. *)
Definition try_finally_return {S A B} (m : M S A) (r : B) : M S B :=
  fun s => match m s with (_, s') => (Returned r, s') end.

(** [if (c) { m }] *)
Definition when {S} (c : bool) (m : M S unit) : M S unit :=
  if c then m else ret tt.

Declare Scope eff_scope.
Delimit Scope eff_scope with eff.
Notation "x <- m ;; k" := (bind m (fun x => k))
  (at level 100, m at next level, right associativity) : eff_scope.
Notation "m ;; k" := (bind m (fun _ => k))
  (at level 100, right associativity) : eff_scope.

End Eff.

(** ** [error-handler.ts] *)

Module ErrorHandler.
Import ErrorTypes Eff.
Local Open Scope eff_scope.

Definition HANDLER_EVENT : string := "handler-event".
Definition ERROR_EVENT : string := "error".
Definition WARN_EVENT : string := "warn".

(** The two functions of the Node.js runtime whose results [handle]
    depends on and that are no part of the repository:
    [JSON.stringify], applied to the context of an error, yields the JSON
    text or throws (a [TypeError] for a circular structure, such as the
    response of an HTTP client that points back to its request, and for a
    [BigInt]); [util.inspect], applied to a string, yields the quoted
    string that [EventEmitter] puts into the message of the error it
    throws for an unhandled [error] event. *)
Record Node : Type := mkNode {
  JSON_stringify : gmap string Value -> JSError + string;
  inspect : string -> string;
}.

(** The report [reportError] creates with [btClient.createReport]: the
    error and the attributes [icps.description], [icps.severity],
    [icps.ctx] (a JSON text), [icps.uuid], and [icps.cause] when the error
    has a cause. *)
Record Report : Type := mkReport {
  report_err : iCPSError;
  icps_description : string;
  icps_severity : Severity;
  icps_ctx : string;
  icps_uuid : string;
  icps_cause : option JSError;
}.

Inductive LogLevel : Type := LogWarn | LogError.

(** The handler and what it has done so far: [btClient] is present exactly
    when [options.enableCrashReporting] was set; [listeners] are the events
    a listener was registered for with [on], one entry for each
    registration; [sent] are the reports passed to [btClient.sendAsync],
    [emitted] the events emitted by the handler (event name and argument of
    each call of [this.emit] that returned), [logged] the lines written to
    the logger; each list has the oldest entry first. *)
Record Handler : Type := mkHandler {
  btClient : bool;
  listeners : list string;
  sent : list Report;
  emitted : list (string * string);
  logged : list (LogLevel * string);
}.



(** [handler.listenerCount(event) > 0] *)
Definition has_listener (event : string) (h : Handler) : bool :=
  existsb (String.eqb event) (listeners h).

(** [await this.btClient.sendAsync(report)]: the report is handed to the
    client, which is taken to resolve whether or not the submission
    succeeds. *)
Definition sendAsync (report : Report) (h : Handler) : Handler :=
  mkHandler (btClient h) (listeners h) (sent h ++ [report]) (emitted h) (logged h).

Definition record_emit (event msg : string) (h : Handler) : Handler :=
  mkHandler (btClient h) (listeners h) (sent h) (emitted h ++ [(event, msg)]) (logged h).

Definition record_log (l : LogLevel) (msg : string) (h : Handler) : Handler :=
  mkHandler (btClient h) (listeners h) (sent h) (emitted h) (logged h ++ [(l, msg)]).

(** The error [EventEmitter.emit] throws for an [error] event nobody
    listens to, when the argument of the event is no [Error]. *)
Definition UnhandledError (node : Node) (msg : string) : JSError :=
  PlainError "Error" ("Unhandled error. (" +:+ inspect node msg +:+ ")").

(** [this.emit(event, msg)], inherited from [EventEmitter]: the listeners
    of the event are called and [emit] returns whether there were any; the
    event [error] without a listener is thrown instead.  The listeners
    belong to the users of the handler and are taken to return. *)
Definition emit (node : Node) (event msg : string) : M Handler bool :=
  h <- get ;;
  if String.eqb event "error" && negb (has_listener event h) then
    throw (UnhandledError node msg)
  else
    modify (record_emit event msg) ;;
    ret (has_listener event h).

(** [getLogger(this).warn(message)] and [getLogger(this).error(message)] *)
Definition log (l : LogLevel) (msg : string) : M Handler unit :=
  modify (record_log l msg).

(** [async reportError(err: iCPSError): Promise<string>]; [errorUUID] is
    what [randomUUID()] returns in this call. *)
Definition reportError (node : Node) (errorUUID : string) (err : iCPSError)
    : M Handler string :=
  h <- get ;;
  if negb (btClient h) then
    ret "No error code! Please enable crash reporting!"
  else
    match JSON_stringify node (getContext err) with
    | inl thrown => throw thrown
    | inr ctx =>
        let report :=
          mkReport err (getDescription err) (sev err) ctx errorUUID (cause err) in
        modify (sendAsync report) ;;
        ret errorUUID
    end.

(** [async handle(err: unknown)] *)
Definition handle (node : Node) (errorUUID : string) (err : Value)
    : M Handler unit :=
  let _err := toiCPSError err in
  let message := getDescription _err in
  let shouldReport :=
    Severity_eqb (sev _err) FATAL && negb (instanceof_InterruptError _err) in
  message <-
    (if shouldReport then
       errorId <- reportError node errorUUID _err ;;
       ret (message +:+ " (Error Code: " +:+ errorId +:+ ")")
     else ret message) ;;
  match sev _err with
  | WARN =>
      emit node WARN_EVENT message ;;
      log LogWarn message
  | FATAL =>
      emit node ERROR_EVENT message ;;
      log LogError message
  end.

(** *** [static cleanEnv()] *)

(** The part of the global [process] that [cleanEnv] touches.  The entries
    of [argv] and [execArgv] are strings; an assignment past the end of a
    JavaScript array leaves empty slots, which read as [undefined] and are
    [None] here. *)
Record Process : Type := mkProcess {
  env : gmap string string;
  argv : list (option string);
  execArgv : list (option string);
}.

Record ConfidentialEntry : Type := mkConfidentialEntry {
  entry_env : string;
  entry_cli : list string;
  entry_replacement : string;
}.

(** [Object.values(confidentialData)], in the order of the literal. *)
Definition confidentialData : list ConfidentialEntry :=
  [ mkConfidentialEntry "APPLE_ID_USER" ["-u"; "--username"] "<APPLE ID USERNAME>";
    mkConfidentialEntry "APPLE_ID_PWD" ["-p"; "--password"] "<APPLE ID PASSWORD>";
    mkConfidentialEntry "TRUST_TOKEN" ["-T"; "--trust-token"] "<TRUST TOKEN>" ].

(** [Array.prototype.findIndex]: the index of the first element that
    satisfies the predicate, [-1] when there is none. *)
Fixpoint findIndex {A} (p : A -> bool) (a : list A) : Z :=
  match a with
  | [] => -1
  | x :: a' =>
      if p x then 0
      else let i := findIndex p a' in
           if (i =? -1)%Z then (-1)%Z else (i + 1)%Z
  end.

(** [value => value === flag] *)
Definition is_flag (flag : string) (value : option string) : bool :=
  match value with
  | Some v => String.eqb v flag
  | None => false
  end.

(** [a[i] = v] for [0 <= i]: in range the element is replaced, at the end
    it is appended, further out the gap is filled with empty slots. *)
Definition array_set (a : list (option string)) (i : Z) (v : string)
    : list (option string) :=
  let n := Z.to_nat i in
  if (n <? length a)%nat then <[n := Some v]> a
  else a ++ replicate (n - length a) None ++ [Some v].

Definition set_argv (p : Process) (a : list (option string)) : Process :=
  mkProcess (env p) a (execArgv p).

Definition set_env (p : Process) (k v : string) : Process :=
  mkProcess (<[k := v]> (env p)) (argv p) (execArgv p).

(** [if (process.env[name])]: set and not the empty string. *)
Definition env_truthy (p : Process) (name : string) : bool :=
  match env p !! name with
  | Some v => negb (String.eqb v "")
  | None => false
  end.

(** The body of the inner loop, for one CLI flag of an entry. *)
Definition cleanCliValue (replacement : string) (p : Process)
    (confidentialCliValue : string) : Process :=
  let confidentialCliValueIndexArgV :=
    findIndex (is_flag confidentialCliValue) (argv p) in
  let p :=
    if negb (confidentialCliValueIndexArgV =? -1)%Z
    then set_argv p (array_set (argv p) (confidentialCliValueIndexArgV + 1) replacement)
    else p in
  let confidentialCliValueIndexExecArgV :=
    findIndex (is_flag confidentialCliValue) (execArgv p) in
  if negb (confidentialCliValueIndexExecArgV =? -1)%Z
  then set_argv p (array_set (argv p) (confidentialCliValueIndexExecArgV + 1) replacement)
  else p.

(** The body of the outer loop, for one entry of [confidentialData]. *)
Definition cleanEntry (p : Process) (confidentialEntry : ConfidentialEntry)
    : Process :=
  let p :=
    if env_truthy p (entry_env confidentialEntry)
    then set_env p (entry_env confidentialEntry) (entry_replacement confidentialEntry)
    else p in
  foldl (cleanCliValue (entry_replacement confidentialEntry)) p
        (entry_cli confidentialEntry).

Definition cleanEnv (p : Process) : Process :=
  foldl cleanEntry p confidentialData.

End ErrorHandler.

(** ** [icloud.ts]: the authentication flow of the class [iCloud] *)

Module ICloud.
Import ErrorTypes Eff.
Local Open Scope eff_scope.

(** [this.auth.iCloudAuthSecrets] once a signin response was processed. *)
Record AuthSecrets : Type := mkAuthSecrets {
  sessionId : string;
  scnt : string;
  aasp : string;
}.

(** The events the class emits on itself, with their argument:
    [ICLOUD.EVENTS.*] and [HANDLER_EVENT]. *)
Inductive Event : Type :=
  | AUTHENTICATION_STARTED
  | MFA_REQUIRED (port : Z)
  | AUTHENTICATED
  | TRUSTED
  | ACCOUNT_READY
  | READY
  | ERROR (err : Value)
  | HANDLER_EVENT (err : Value).

(** The fields of an [iCloud] object that the authentication flow reads or
    writes: [app.options.failOnMfa] (it selects the [MFA_REQUIRED] listener
    in the constructor), the secrets held by [this.auth], the port and the
    state of [this.mfaServer], and the events emitted so far, oldest
    first. *)
Record iCloud : Type := mkiCloud {
  failOnMfa : bool;
  iCloudAuthSecrets : option AuthSecrets;
  mfaServer_port : Z;
  mfaServer_running : bool;
  emitted : list Event;
}.

Definition set_iCloudAuthSecrets (a : AuthSecrets) (s : iCloud) : iCloud :=
  mkiCloud (failOnMfa s) (Some a) (mfaServer_port s) (mfaServer_running s) (emitted s).

Definition set_mfaServer_running (b : bool) (s : iCloud) : iCloud :=
  mkiCloud (failOnMfa s) (iCloudAuthSecrets s) (mfaServer_port s) b (emitted s).

Definition record_event (ev : Event) (s : iCloud) : iCloud :=
  mkiCloud (failOnMfa s) (iCloudAuthSecrets s) (mfaServer_port s)
           (mfaServer_running s) (emitted s ++ [ev]).

(** Modelled from the spec: [MFAServer.startServer] ([mfa/mfa-server.ts]) is
    not among the sources; the MFA intake server is a local HTTP server
    that is either listening or not. *)
Definition startServer : M iCloud unit := modify (set_mfaServer_running true).

(** Modelled from the spec: [MFAServer.stopServer] ([mfa/mfa-server.ts]) is
    not among the sources; stopping the server ends its listening. *)
Definition stopServer : M iCloud unit := modify (set_mfaServer_running false).

(** The listener the constructor registers for [MFA_REQUIRED]: with
    [failOnMfa] it emits a fatal error, otherwise it starts the MFA server.
    [ERROR] has no listener that acts on the object. *)
Definition on_MFA_REQUIRED : M iCloud unit :=
  s <- get ;;
  if failOnMfa s then
    modify (record_event (ERROR (VError (ICPS
      (iCloudError "MFA code required, failing due to failOnMfa flag")))))
  else
    try_catch startServer
      (fun err => modify (record_event (ERROR (VError (ICPS
         (addCause (iCloudError "Unable to start MFA server") err)))))).

(** [this.emit(event, arg)]: the event is recorded and the synchronous
    listener of the constructor runs.  The listeners of [TRUSTED],
    [AUTHENTICATED] and [ACCOUNT_READY] start the next request of the flow
    ([getiCloudCookies], [getTokens], [getiCloudPhotosReady]); they are the
    continuation of the flow and no part of the emitting method. *)
Definition emit (ev : Event) : M iCloud unit :=
  modify (record_event ev) ;;
  match ev with
  | MFA_REQUIRED _ => on_MFA_REQUIRED
  | _ => ret tt
  end.

(** What the network does with a request: no response at all, or a
    response with a status code. *)
Inductive NetOutcome : Type :=
  | NoResponse (message : string)
  | Responded (r : Response).

(** [await this.axios.post/put(url, data, config)]: axios resolves with the
    response when its status is 2XX and throws an error that carries the
    response otherwise ("Will throw error if response is non 2XX"). *)
Definition axios_request (net : NetOutcome) : M iCloud Response :=
  match net with
  | NoResponse m => throw (AxiosError m None)
  | Responded r =>
      if (200 <=? status r)%Z && (status r <? 300)%Z then ret r
      else throw (AxiosError ("Request failed with status code " +:+ pretty (status r))
                             (Some r))
  end.

(** [const {response} = err] *)
Definition response_of (err : JSError) : option Response :=
  match err with
  | AxiosError _ r => r
  | _ => None
  end.

(** The methods of [this.auth] ([auth.ts], not among the sources) that
    [authenticate] calls: [validateAccountSecrets()] throws or not for the
    account secrets of the session, [processAuthSecrets(response)] throws
    or yields the secrets it stores. *)
Record iCloudAuth : Type := mkiCloudAuth {
  validateAccountSecrets : option JSError;
  processAuthSecrets : Response -> JSError + AuthSecrets;
}.

(** The methods of an [MFAMethod] ([mfa/mfa-method.ts], not among the
    sources) that [resendMFA] and [submitMFA] call. *)
Inductive MFAMethodType : Type := DEVICE | SMS | VOICE.

Record MFAMethod : Type := mkMFAMethod {
  method_type : MFAMethodType;
  resendSuccessful : Response -> bool;
  enterSuccessful : Response -> bool;
  processResendError : JSError -> JSError;
}.

Definition isSMS (m : MFAMethod) : bool :=
  match method_type m with SMS => true | _ => false end.
Definition isVoice (m : MFAMethod) : bool :=
  match method_type m with VOICE => true | _ => false end.
Definition isDevice (m : MFAMethod) : bool :=
  match method_type m with DEVICE => true | _ => false end.

Definition TypeError (msg : string) : JSError := PlainError "TypeError" msg.

Section Methods.

Variable auth : iCloudAuth.

(** [this.auth.validateAccountSecrets()] *)
Definition auth_validateAccountSecrets : M iCloud unit :=
  match validateAccountSecrets auth with
  | Some e => throw e
  | None => ret tt
  end.

(** [this.auth.processAuthSecrets(response)] *)
Definition auth_processAuthSecrets (response : Response) : M iCloud unit :=
  match processAuthSecrets auth response with
  | inl e => throw e
  | inr secrets => modify (set_iCloudAuthSecrets secrets)
  end.

(** [async authenticate(): Promise<void>]; [net] is what the network does
    with the signin request.  The result is the promise [this.ready]. *)
Definition authenticate (net : NetOutcome) : M iCloud unit :=
  emit AUTHENTICATION_STARTED ;;
  auth_validateAccountSecrets ;;
  try_finally_return
    (try_catch
       (response <- axios_request net ;;
        if negb (status response =? 200)%Z then
          emit (ERROR (VError (ICPS
            (addContext (iCloudError ("Unexpected HTTP code: " +:+ pretty (status response)))
                        "response" (VResponse response)))))
        else
          try_catch
            (auth_processAuthSecrets response ;;
             emit TRUSTED)
            (fun err => emit (ERROR (VError err))))
       (fun err =>
          match response_of err with
          | None =>
              emit (ERROR (VError (ICPS
                (addCause (iCloudError "No response received during authentication") err))))
          | Some response =>
              when (status response =? 401)%Z
                (emit (ERROR (VError (ICPS
                   (addCause (iCloudError "Username/Password does not seem to match") err))))) ;;
              when (status response =? 403)%Z
                (emit (ERROR (VError (ICPS
                   (addCause (iCloudError "Username does not seem to exist") err))))) ;;
              if negb (status response =? 409)%Z then
                emit (ERROR (VError (ICPS
                  (addCause (iCloudError ("Unexpected HTTP code: " +:+ pretty (status response)))
                            err))))
              else
                try_catch
                  (auth_processAuthSecrets response ;;
                   s <- get ;;
                   emit (MFA_REQUIRED (mfaServer_port s)))
                  (fun err => emit (ERROR (VError err)))
          end))
    tt.

End Methods.

(** [async resendMFA(method: MFAMethod)]; [net] is what the network does
    with the resend request. *)
Definition resendMFA (method : MFAMethod) (net : NetOutcome) : M iCloud unit :=
  try_catch
    (response <- axios_request net ;;
     if negb (resendSuccessful method response) then
       emit (HANDLER_EVENT (VError (ICPS
         (addContext (iCloudWarning "Unable to request new MFA code")
                     "response" (VResponse response)))))
     else if isSMS method || isVoice method then
       (* the log line reads response.data.trustedPhoneNumber.numberWithDialCode *)
       match data_trustedPhoneNumber response with
       | Some _ => ret tt
       | None => throw (TypeError "Cannot read properties of undefined (reading 'numberWithDialCode')")
       end
     else if isDevice method then
       (* the log line reads response.data.trustedDeviceCount *)
       ret tt
     else ret tt)
    (fun err =>
       emit (HANDLER_EVENT (VError (ICPS
         (addCause (iCloudWarning "Requesting MFA code failed")
                   (processResendError method err)))))).

(** [async submitMFA(method: MFAMethod, mfa: string)]; [net] is what the
    network does with the request that enters the code. *)
Definition submitMFA (method : MFAMethod) (mfa : string) (net : NetOutcome)
    : M iCloud unit :=
  try_catch
    (stopServer ;;
     response <- axios_request net ;;
     (if negb (enterSuccessful method response) then
        throw (ICPS
          (addContext
             (iCloudError ("Received unexpected response status code ("
                           +:+ pretty (status response) +:+ ") during MFA validation"))
             "response" (VResponse response)))
      else ret tt) ;;
     emit AUTHENTICATED)
    (fun err =>
       emit (ERROR (VError (ICPS
         (addCause (iCloudError "Received error during MFA validation") err))))).

End ICloud.

(** ** [icloud-app.ts]: the library lock and the token flow

    [icloud-app.ts] is not among the sources at hand; its unit tests
    ([app/test/unit/app.test.ts]) are.  The definitions of this module
    follow the specification, with the error messages and call counts the
    unit tests fix. *)

Module ICloudApp.
Import ErrorTypes Eff.
Local Open Scope eff_scope.

Definition LIBRARY_LOCK_FILE : string := ".library.lock".

(** The methods of the app whose invocations the unit tests count. *)
Inductive Call : Type :=
  | CallAcquireLibraryLock
  | CallAuthenticate
  | CallReleaseLibraryLock.

(** An app in its environment: [options.force], [process.pid], the files of
    [options.dataDir] (file name to content), and the calls made so far,
    oldest first. *)
Record App : Type := mkApp {
  force : bool;
  pid : N;
  dataDir : gmap string string;
  calls : list Call;
}.

Definition set_dataDir (f : gmap string string -> gmap string string)
    (a : App) : App :=
  mkApp (force a) (pid a) (f (dataDir a)) (calls a).

Definition record_call (c : Call) (a : App) : App :=
  mkApp (force a) (pid a) (dataDir a) (calls a ++ [c]).

(** Modelled from the spec: [iCloudApp.acquireLibraryLock] of
    [icloud-app.ts] is not among the sources.  "Writes
    [<dataDir>/.library.lock] containing the current process id. Acquire:
    if absent, create; if present with pid ≠ self, fail with
    [LibraryError("Locked by PID N")] unless [force=true], in which case
    overwrite."  A lock that holds the pid of the process itself is written
    again.  The message is the one the unit test expects. *)
Definition acquireLibraryLock : M App unit :=
  a <- get ;;
  match dataDir a !! LIBRARY_LOCK_FILE with
  | None => modify (set_dataDir (insert LIBRARY_LOCK_FILE (pretty (pid a))))
  | Some lockingProcess =>
      if negb (String.eqb lockingProcess (pretty (pid a))) && negb (force a) then
        throw (ICPS (LibraryError
          ("Locked by PID " +:+ lockingProcess
           +:+ ". Use --force (or FORCE env variable) to forcefully remove the lock")))
      else modify (set_dataDir (insert LIBRARY_LOCK_FILE (pretty (pid a))))
  end.

(** Modelled from the spec: [iCloudApp.releaseLibraryLock] of
    [icloud-app.ts] is not among the sources.  "Release: read file; if
    pid ≠ self, fail unless [force]; otherwise unlink. Absence of a lock at
    release time is a separate error kind ([NoLock])."  The messages are
    the ones the unit tests expect. *)
Definition releaseLibraryLock : M App unit :=
  a <- get ;;
  match dataDir a !! LIBRARY_LOCK_FILE with
  | None =>
      throw (ICPS (LibraryError "Unable to release library lock, no lock exists"))
  | Some lockingProcess =>
      if negb (String.eqb lockingProcess (pretty (pid a))) && negb (force a) then
        throw (ICPS (LibraryError
          ("Locked by PID " +:+ lockingProcess
           +:+ ", cannot release. Use --force (or FORCE env variable) to forcefully remove the lock")))
      else modify (set_dataDir (delete LIBRARY_LOCK_FILE))
  end.

(** The methods a run goes through.  They are fields of the app object, and
    the unit tests replace them by functions that resolve or reject. *)
Record Methods : Type := mkMethods {
  m_acquireLibraryLock : M App unit;
  m_authenticate : M App unit;
  m_releaseLibraryLock : M App unit;
}.

(** A call of a method, counted. *)
Definition call (c : Call) (m : M App unit) : M App unit :=
  modify (record_call c) ;; m.

(** Modelled from the spec: [TokenApp.run] of [icloud-app.ts] is not among
    the sources.  The data flow is "acquires lock → authenticates → ... →
    releases"; "the lock is always released on all exit paths"; a failure
    of the lock acquisition is specified as a [LibraryError] ("Specify it
    as [LibraryError] instead"), a failure of the trust-token acquisition
    is a [TokenError].  Both carry the message the unit tests expect,
    "Unable to get trust token", and the failure as their cause.  What the
    flow does with the token after [authenticate] is left out. *)
Definition TokenApp_run (app : Methods) : M App unit :=
  try_finally
    (try_catch (call CallAcquireLibraryLock (m_acquireLibraryLock app))
       (fun err => throw (ICPS (addCause (LibraryError "Unable to get trust token") err))) ;;
     try_catch (call CallAuthenticate (m_authenticate app))
       (fun err => throw (ICPS (addCause (TokenError "Unable to get trust token") err))))
    (call CallReleaseLibraryLock (m_releaseLibraryLock app)).


End ICloudApp.

(** * Properties *)

(** ** Classification and conversion of errors ([error-types.ts]) *)

Module ErrorTypesProps.
Import ErrorTypes.

Lemma Severity_eqb_eq (a b : Severity) : Severity_eqb a b = true <-> a = b.
Proof. destruct a, b; simpl; split; congruence. Qed.

Lemma ErrorClass_eqb_eq (a b : ErrorClass) : ErrorClass_eqb a b = true <-> a = b.
Proof. destruct a, b; simpl; split; congruence. Qed.

Lemma instanceof_iCPSError_Some (err : Value) (e : iCPSError) :
  instanceof_iCPSError err = Some e <-> err = VError (ICPS e).
Proof.
  split.
  - destruct err as [| |b|n|s|fields|r|[n m|m r|i]]; simpl; congruence.
  - intros ->. reflexivity.
Qed.

(** Every subclass constructor yields the severity its class is declared
    with. *)
Lemma constructor_severities (c : string) (j : JSError) :
  sev (InterruptError c) = FATAL /\ sev (iCloudError c) = FATAL /\
  sev (iCloudWarning c) = WARN /\ sev (iCloudAuthError c) = FATAL /\
  sev (LibraryError c) = FATAL /\ sev (LibraryWarning c) = WARN /\
  sev (MFAWarning c) = WARN /\ sev (TokenError c) = FATAL /\
  sev (SyncError c) = FATAL /\ sev (SyncWarning c) = WARN /\
  sev (ArchiveError c) = FATAL /\ sev (ArchiveWarning c) = WARN /\
  sev (DaemonAppError j) = FATAL.
Proof. repeat split. Qed.

(** C9. [iCPSError.fatalError(err)] is [false] exactly when [err] is an
    instance of [iCPSError] whose severity is [WARN]; every other value is
    fatal, among them plain [Error] objects, strings, [null], [undefined]
    and the instances of [iCPSError] of severity [FATAL]. *)
Theorem fatalError_false_iff_iCPS_warning (err : Value) :
  (fatalError err = false <->
     exists e : iCPSError, err = VError (ICPS e) /\ sev e = WARN) /\
  (fatalError err = true <->
     ~ exists e : iCPSError, err = VError (ICPS e) /\ sev e = WARN) /\
  fatalError VUndefined = true /\
  fatalError VNull = true /\
  (forall s, fatalError (VString s) = true) /\
  (forall n m, fatalError (VError (PlainError n m)) = true) /\
  (forall m r, fatalError (VError (AxiosError m r)) = true) /\
  (forall e, sev e = FATAL -> fatalError (VError (ICPS e)) = true).
Proof.
  assert (Hiff : fatalError err = false <->
            exists e : iCPSError, err = VError (ICPS e) /\ sev e = WARN).
  { unfold fatalError. split.
    - destruct (instanceof_iCPSError err) as [e|] eqn:Hi; simpl; [|discriminate].
      intros Hs. apply negb_false_iff, Severity_eqb_eq in Hs.
      apply instanceof_iCPSError_Some in Hi. eauto.
    - intros (e & -> & Hs). simpl. rewrite Hs. reflexivity. }
  split; [exact Hiff|]. split.
  - rewrite <- Hiff. destruct (fatalError err); split; congruence.
  - repeat split; try reflexivity.
    intros e Hs. unfold fatalError. simpl. rewrite Hs. reflexivity.
Qed.

Lemma fatalError_false_iff_iCPS_warning_witness :
  fatalError (VError (ICPS (MFAWarning "wrong code"))) = false /\
  fatalError (VError (ICPS (LibraryError "locked"))) = true.
Proof.
  split.
  - apply (proj1 (fatalError_false_iff_iCPS_warning
                    (VError (ICPS (MFAWarning "wrong code"))))).
    exists (MFAWarning "wrong code"). split; reflexivity.
  - apply (fatalError_false_iff_iCPS_warning VNull). reflexivity.
Defined.

(** C10. [iCPSError.toiCPSError] returns an [iCPSError] unchanged and is
    therefore idempotent; an [Error] that is no [iCPSError] becomes the
    cause of a new FATAL "Unknown error" [iCPSError]; any other value is
    stored in the context of that error under [unknownErrorObject]. *)
Theorem toiCPSError_idempotent :
  (forall e : iCPSError, toiCPSError (VError (ICPS e)) = e) /\
  (forall x : Value, toiCPSError (VError (ICPS (toiCPSError x))) = toiCPSError x) /\
  (forall e : JSError, (forall i, e <> ICPS i) ->
     toiCPSError (VError e) =
       mkiCPSError Class_iCPSError "Unknown error" FATAL (Some e) ∅) /\
  (forall x : Value, (forall e, x <> VError e) ->
     toiCPSError x =
       mkiCPSError Class_iCPSError "Unknown error" FATAL None
                   {[ "unknownErrorObject" := x ]}).
Proof.
  split; [reflexivity|]. split; [reflexivity|]. split.
  - intros e Hne. destruct e as [n m|m r|i]; try reflexivity.
    exfalso. exact (Hne i eq_refl).
  - intros x Hne.
    destruct x as [| |b|n|s|fields|r|e];
      try (cbv [toiCPSError instanceof_iCPSError instanceof_Error addContext
                new_iCPSError context cls message sev cause];
           rewrite insert_empty; reflexivity).
    exfalso. exact (Hne e eq_refl).
Qed.

Lemma toiCPSError_idempotent_witness :
  toiCPSError (VError (PlainError "Error" "boom")) =
    mkiCPSError Class_iCPSError "Unknown error" FATAL
                (Some (PlainError "Error" "boom")) ∅ /\
  toiCPSError (VString "boom") =
    mkiCPSError Class_iCPSError "Unknown error" FATAL None
                {[ "unknownErrorObject" := VString "boom" ]}.
Proof.
  split.
  - apply (proj1 (proj2 (proj2 toiCPSError_idempotent))). intros i. discriminate.
  - apply (proj2 (proj2 (proj2 toiCPSError_idempotent))). intros e. discriminate.
Defined.

End ErrorTypesProps.

(** ** Handling of errors and scrubbing of the environment
       ([error-handler.ts]) *)

Module ErrorHandlerProps.
Import ErrorTypes Eff ErrorHandler.

(** Whether [handle] asks for a report of the converted error. *)
Definition shouldReport (err : Value) : bool :=
  Severity_eqb (sev (toiCPSError err)) FATAL
  && negb (instanceof_InterruptError (toiCPSError err)).






(** Unfolds the monadic plumbing of the handler. *)
Ltac run_handler :=
  cbv [handle reportError emit log bind get modify ret throw
       ERROR_EVENT WARN_EVENT];
  cbn [String.eqb Ascii.eqb Bool.eqb andb negb].




(** A warning is emitted on the warn event with its bare description,
    logged as a warning and never reported, listener or not. *)
Lemma handle_warning (node : Node) (errorUUID : string) (e : iCPSError)
    (h : Handler) :
  sev e = WARN ->
  handle node errorUUID (VError (ICPS e)) h =
    (Returned tt,
     record_log LogWarn (getDescription e)
       (record_emit WARN_EVENT (getDescription e) h)).
Proof.
  intros Hs. run_handler. cbn [toiCPSError instanceof_iCPSError].
  rewrite Hs. reflexivity.
Qed.

(** An interrupt is never reported, whatever the configuration. *)
Lemma handle_interrupt_not_reported
    (node : Node) (errorUUID sig : string) (h : Handler) :
  sent (snd (handle node errorUUID (VError (ICPS (InterruptError sig))) h)) = sent h.
Proof.
  run_handler. cbn [toiCPSError instanceof_iCPSError].
  cbn. destruct (has_listener "error" h); reflexivity.
Qed.

(** *** [cleanEnv] *)

Lemma cleanCliValue_execArgv (replacement flag : string) (p : Process) :
  execArgv (cleanCliValue replacement p flag) = execArgv p.
Proof.
  unfold cleanCliValue.
  repeat match goal with |- context [if ?c then _ else _] => destruct c end;
    reflexivity.
Qed.

Lemma cleanEntry_execArgv (entry : ConfidentialEntry) (p : Process) :
  execArgv (cleanEntry p entry) = execArgv p.
Proof.
  unfold cleanEntry.
  set (p0 := if env_truthy p (entry_env entry) then _ else p).
  assert (H0 : execArgv p0 = execArgv p) by (subst p0; destruct (env_truthy _ _); reflexivity).
  rewrite <- H0. clearbody p0. clear H0.
  generalize dependent p0.
  induction (entry_cli entry) as [|flag flags IH]; intros p0; simpl; [reflexivity|].
  rewrite IH. apply cleanCliValue_execArgv.
Qed.

(** [cleanEnv] never writes to [process.execArgv]: what follows a flag
    there stays readable. *)
Lemma cleanEnv_execArgv_unchanged (p : Process) :
  execArgv (cleanEnv p) = execArgv p.
Proof.
  unfold cleanEnv. generalize dependent p.
  induction confidentialData as [|entry entries IH]; intros p; simpl; [reflexivity|].
  rewrite IH. apply cleanEntry_execArgv.
Qed.

Lemma cleanCliValue_env (replacement flag : string) (p : Process) :
  env (cleanCliValue replacement p flag) = env p.
Proof.
  unfold cleanCliValue.
  repeat match goal with |- context [if ?c then _ else _] => destruct c end;
    reflexivity.
Qed.

(** What one entry does to the environment. *)
Definition scrub (entry : ConfidentialEntry) (m : gmap string string)
    : gmap string string :=
  match m !! entry_env entry with
  | Some v =>
      if negb (String.eqb v "")
      then <[entry_env entry := entry_replacement entry]> m
      else m
  | None => m
  end.

Lemma cleanEntry_env (entry : ConfidentialEntry) (p : Process) :
  env (cleanEntry p entry) = scrub entry (env p).
Proof.
  unfold cleanEntry.
  set (p0 := if env_truthy p (entry_env entry) then _ else p).
  assert (H0 : env p0 = scrub entry (env p)).
  { subst p0. unfold env_truthy, scrub.
    destruct (env p !! entry_env entry) as [v|]; [|reflexivity].
    destruct (negb (String.eqb v "")); reflexivity. }
  rewrite <- H0. clearbody p0. clear H0.
  generalize dependent p0.
  induction (entry_cli entry) as [|flag flags IH]; intros p0; simpl; [reflexivity|].
  rewrite IH. apply cleanCliValue_env.
Qed.

Lemma scrub_lookup_ne (entry : ConfidentialEntry) (m : gmap string string)
    (k : string) :
  k <> entry_env entry -> scrub entry m !! k = m !! k.
Proof.
  intros Hne. unfold scrub.
  destruct (m !! entry_env entry) as [v|]; [|reflexivity].
  destruct (negb (String.eqb v "")); [|reflexivity].
  apply lookup_insert_ne. congruence.
Qed.

Lemma scrub_lookup_set (entry : ConfidentialEntry) (m : gmap string string)
    (v : string) :
  m !! entry_env entry = Some v -> v <> "" ->
  scrub entry m !! entry_env entry = Some (entry_replacement entry).
Proof.
  intros Hv Hne. unfold scrub. rewrite Hv.
  apply String.eqb_neq in Hne. rewrite Hne. apply lookup_insert_eq.
Qed.

Lemma scrub_lookup_unset (entry : ConfidentialEntry) (m : gmap string string) :
  m !! entry_env entry = None -> scrub entry m !! entry_env entry = None.
Proof. intros Hv. unfold scrub. rewrite Hv. exact Hv. Qed.

Lemma cleanEnv_env (p : Process) :
  env (cleanEnv p) = foldl (fun m entry => scrub entry m) (env p) confidentialData.
Proof.
  unfold cleanEnv. generalize dependent p.
  induction confidentialData as [|entry entries IH]; intros p; simpl; [reflexivity|].
  rewrite IH, cleanEntry_env. reflexivity.
Qed.

(** The environment half of the scrubbing: a confidential variable that is
    set to a non-empty value holds its placeholder after [cleanEnv], and a
    variable that is unset stays unset. *)
Lemma cleanEnv_env_scrubbed (p : Process) (entry : ConfidentialEntry) :
  In entry confidentialData ->
  (forall v : string, env p !! entry_env entry = Some v -> v <> "" ->
     env (cleanEnv p) !! entry_env entry = Some (entry_replacement entry)) /\
  (env p !! entry_env entry = None ->
     env (cleanEnv p) !! entry_env entry = None).
Proof.
  intros Hin. rewrite cleanEnv_env. unfold confidentialData. cbn [foldl].
  destruct Hin as [<-|[<-|[<-|[]]]]; split; intros;
    repeat first
      [ rewrite scrub_lookup_ne by (cbn; discriminate)
      | erewrite scrub_lookup_set by (try eassumption; rewrite ?scrub_lookup_ne by (cbn; discriminate); eassumption)
      | rewrite scrub_lookup_unset by (rewrite ?scrub_lookup_ne by (cbn; discriminate); assumption) ];
    try reflexivity; try assumption.
Qed.

Lemma cleanEnv_env_scrubbed_witness :
  env (cleanEnv (mkProcess {[ "APPLE_ID_PWD" := "hunter2" ]} [] []))
    !! "APPLE_ID_PWD" = Some "<APPLE ID PASSWORD>".
Proof.
  apply (proj1 (cleanEnv_env_scrubbed
                  (mkProcess {[ "APPLE_ID_PWD" := "hunter2" ]} [] [])
                  (mkConfidentialEntry "APPLE_ID_PWD" ["-p"; "--password"]
                                       "<APPLE ID PASSWORD>")
                  (or_intror (or_introl eq_refl)))
          "hunter2").
  - reflexivity.
  - discriminate.
Defined.

(** C8 on a concrete process: the password passed in [execArgv] is still
    there after [cleanEnv], and the placeholder was written to [argv] at
    the index computed for [execArgv]. *)
Theorem cleanEnv_execArgv_keeps_password :
  execArgv (cleanEnv (mkProcess ∅ [Some "node"; Some "main.js"]
                                [Some "--password"; Some "hunter2"])) =
    [Some "--password"; Some "hunter2"] /\
  argv (cleanEnv (mkProcess ∅ [Some "node"; Some "main.js"]
                            [Some "--password"; Some "hunter2"])) =
    [Some "node"; Some "<APPLE ID PASSWORD>"].
Proof. split; vm_compute; reflexivity. Qed.

End ErrorHandlerProps.

(** ** The authentication flow ([icloud.ts]) *)

Module ICloudProps.
Import ErrorTypes Eff ICloud.

(** The error axios throws for a response whose status is not 2XX. *)
Definition rejection (r : Response) : JSError :=
  AxiosError ("Request failed with status code " +:+ pretty (status r)) (Some r).

(** The three fatal errors [authenticate] emits for a rejected signin. *)
Definition BadCredentials (r : Response) : Value :=
  VError (ICPS (addCause (iCloudError "Username/Password does not seem to match")
                         (rejection r))).

Definition UnknownUser (r : Response) : Value :=
  VError (ICPS (addCause (iCloudError "Username does not seem to exist")
                         (rejection r))).

Definition UnexpectedHTTP (r : Response) : Value :=
  VError (ICPS (addCause (iCloudError ("Unexpected HTTP code: " +:+ pretty (status r)))
                         (rejection r))).

(** The same error for a 2XX response other than 200, which axios does not
    reject: it carries the response as context. *)
Definition UnexpectedHTTP_resolved (r : Response) : Value :=
  VError (ICPS (addContext (iCloudError ("Unexpected HTTP code: " +:+ pretty (status r)))
                           "response" (VResponse r))).

(** A request is accepted when a 2XX response arrives that the validator
    of the method approves; it has failed otherwise. *)
Definition accepted (valid : Response -> bool) (net : NetOutcome) : bool :=
  match net with
  | NoResponse _ => false
  | Responded r => (200 <=? status r)%Z && (status r <? 300)%Z && valid r
  end.

Definition is_ERROR (ev : Event) : bool :=
  match ev with ERROR _ => true | _ => false end.

(** An MFA method whose validators approve no response and that hands the
    error of a failed resend on as it is. *)
Definition strictMethod (t : MFAMethodType) : MFAMethod :=
  mkMFAMethod t (fun _ => false) (fun _ => false) (fun e => e).

(** An [iCloudAuth] whose account secrets are valid and that finds no
    secrets in any response. *)
Definition bareAuth : iCloudAuth :=
  mkiCloudAuth None (fun _ => inl (ICPS (iCloudAuthError "Unable to process auth response"))).

(** The object after construction: no secrets, MFA server on [port], not
    running, nothing emitted. *)
Definition new_iCloud (failOnMfa : bool) (port : Z) : iCloud :=
  mkiCloud failOnMfa None port false [].

Lemma axios_request_rejects (r : Response) (s : iCloud) :
  ((200 <=? status r)%Z && (status r <? 300)%Z) = false ->
  axios_request (Responded r) s = (Thrown (rejection r), s).
Proof. intros H. unfold axios_request. rewrite H. reflexivity. Qed.

Lemma axios_request_resolves (r : Response) (s : iCloud) :
  ((200 <=? status r)%Z && (status r <? 300)%Z) = true ->
  axios_request (Responded r) s = (Returned r, s).
Proof. intros H. unfold axios_request. rewrite H. reflexivity. Qed.

(** Unfolds the monadic plumbing of a method. *)
Ltac run_method :=
  cbv [authenticate resendMFA submitMFA bind try_catch try_finally_return
       try_finally when emit modify get ret throw auth_validateAccountSecrets
       auth_processAuthSecrets on_MFA_REQUIRED stopServer startServer
       response_of rejection].

(** C1 at the responses the claim singles out. For a signin response of
    status 401 [authenticate] emits the bad-credentials error and then, in
    addition, the unexpected-HTTP-code error; for status 403 it emits the
    unknown-user error and then the unexpected-HTTP-code error. *)
Theorem authenticate_401_403_emit_two_errors
    (auth : iCloudAuth) (r : Response) (s : iCloud) :
  validateAccountSecrets auth = None ->
  (status r = 401%Z ->
     authenticate auth (Responded r) s =
       (Returned tt,
        record_event (ERROR (UnexpectedHTTP r))
          (record_event (ERROR (BadCredentials r))
             (record_event AUTHENTICATION_STARTED s)))) /\
  (status r = 403%Z ->
     authenticate auth (Responded r) s =
       (Returned tt,
        record_event (ERROR (UnexpectedHTTP r))
          (record_event (ERROR (UnknownUser r))
             (record_event AUTHENTICATION_STARTED s)))).
Proof.
  intros Hv. destruct auth as [v p]. simpl in Hv. subst v.
  split; intros Hs; run_method; cbn [validateAccountSecrets];
    rewrite axios_request_rejects by (rewrite Hs; reflexivity);
    unfold UnexpectedHTTP, BadCredentials, UnknownUser, rejection;
    rewrite Hs; reflexivity.
Qed.

Lemma authenticate_401_403_emit_two_errors_witness :
  emitted (snd (authenticate bareAuth
                  (Responded (mkResponse 401 ∅ None None)) (new_iCloud false 80))) =
    [ AUTHENTICATION_STARTED;
      ERROR (BadCredentials (mkResponse 401 ∅ None None));
      ERROR (UnexpectedHTTP (mkResponse 401 ∅ None None)) ].
Proof.
  rewrite (proj1 (authenticate_401_403_emit_two_errors
                    bareAuth (mkResponse 401 ∅ None None) (new_iCloud false 80)
                    eq_refl) eq_refl).
  reflexivity.
Defined.

(** What [authenticate] does for the other statuses, when the account
    secrets are valid: 200 stores the secrets and emits [TRUSTED]; 409
    stores the secrets and emits [MFA_REQUIRED], whose listener starts the
    MFA server unless [failOnMfa] is set; a status other than 200, 401, 403
    and 409 emits the unexpected-HTTP-code error alone. *)
Lemma authenticate_200 (auth : iCloudAuth) (r : Response) (s : iCloud)
    (secrets : AuthSecrets) :
  validateAccountSecrets auth = None ->
  status r = 200%Z ->
  processAuthSecrets auth r = inr secrets ->
  authenticate auth (Responded r) s =
    (Returned tt,
     record_event TRUSTED
       (set_iCloudAuthSecrets secrets (record_event AUTHENTICATION_STARTED s))).
Proof.
  intros Hv Hs Hp. run_method. rewrite Hv.
  rewrite axios_request_resolves by (rewrite Hs; reflexivity).
  rewrite Hs, Hp. reflexivity.
Qed.

Lemma authenticate_409 (auth : iCloudAuth) (r : Response) (s : iCloud)
    (secrets : AuthSecrets) :
  validateAccountSecrets auth = None ->
  status r = 409%Z ->
  processAuthSecrets auth r = inr secrets ->
  failOnMfa s = false ->
  authenticate auth (Responded r) s =
    (Returned tt,
     set_mfaServer_running true
       (record_event (MFA_REQUIRED (mfaServer_port s))
          (set_iCloudAuthSecrets secrets (record_event AUTHENTICATION_STARTED s)))).
Proof.
  intros Hv Hs Hp Hf. run_method. rewrite Hv.
  rewrite axios_request_rejects by (rewrite Hs; reflexivity).
  cbv [rejection]. cbv beta iota. rewrite Hs, Hp. cbv beta iota.
  destruct s as [f a p rn evs]. cbn in Hf. subst f. reflexivity.
Qed.

Lemma authenticate_other_status (auth : iCloudAuth) (r : Response) (s : iCloud) :
  validateAccountSecrets auth = None ->
  status r <> 200%Z -> status r <> 401%Z ->
  status r <> 403%Z -> status r <> 409%Z ->
  authenticate auth (Responded r) s =
    (Returned tt,
     record_event
       (ERROR (if (200 <=? status r)%Z && (status r <? 300)%Z
               then UnexpectedHTTP_resolved r else UnexpectedHTTP r))
       (record_event AUTHENTICATION_STARTED s)).
Proof.
  intros Hv H200 H401 H403 H409. run_method. rewrite Hv.
  apply Z.eqb_neq in H200, H401, H403, H409.
  destruct ((200 <=? status r)%Z && (status r <? 300)%Z) eqn:H2xx.
  - rewrite axios_request_resolves by exact H2xx. rewrite H200. reflexivity.
  - rewrite axios_request_rejects by exact H2xx.
    cbv [rejection]. cbv beta iota. rewrite H401, H403, H409. reflexivity.
Qed.

(** An [iCloudAuth] whose account secrets are valid and that finds the
    same secrets in every response. *)
Definition fixedAuth : iCloudAuth :=
  mkiCloudAuth None (fun _ => inr (mkAuthSecrets "session" "scnt" "aasp")).

(** For a signin response whose status is neither 401 nor 403,
    [authenticate] produces exactly one outcome after
    [AUTHENTICATION_STARTED]: with the secrets of the response at hand,
    200 stores them and emits [TRUSTED], 409 stores them and emits
    [MFA_REQUIRED]; any status other than 200, 401, 403 and 409 emits the
    unexpected-HTTP-code error alone. *)
Theorem authenticate_single_outcome
    (auth : iCloudAuth) (r : Response) (s : iCloud) (secrets : AuthSecrets) :
  validateAccountSecrets auth = None ->
  processAuthSecrets auth r = inr secrets ->
  (status r = 200%Z ->
     iCloudAuthSecrets (snd (authenticate auth (Responded r) s)) = Some secrets /\
     emitted (snd (authenticate auth (Responded r) s)) =
       emitted s ++ [AUTHENTICATION_STARTED; TRUSTED]) /\
  (status r = 409%Z -> failOnMfa s = false ->
     iCloudAuthSecrets (snd (authenticate auth (Responded r) s)) = Some secrets /\
     mfaServer_running (snd (authenticate auth (Responded r) s)) = true /\
     emitted (snd (authenticate auth (Responded r) s)) =
       emitted s ++ [AUTHENTICATION_STARTED; MFA_REQUIRED (mfaServer_port s)]) /\
  (status r <> 200%Z -> status r <> 401%Z ->
   status r <> 403%Z -> status r <> 409%Z ->
     exists e : iCPSError,
       emitted (snd (authenticate auth (Responded r) s)) =
         emitted s ++ [AUTHENTICATION_STARTED; ERROR (VError (ICPS e))] /\
       message e = "Unexpected HTTP code: " +:+ pretty (status r) /\
       sev e = FATAL).
Proof.
  intros Hv Hp. split; [|split].
  - intros Hs. rewrite (authenticate_200 auth r s secrets Hv Hs Hp).
    split; [reflexivity|]. cbn. rewrite <- app_assoc. reflexivity.
  - intros Hs Hf. rewrite (authenticate_409 auth r s secrets Hv Hs Hp Hf).
    split; [reflexivity|]. split; [reflexivity|].
    cbn. rewrite <- app_assoc. reflexivity.
  - intros H200 H401 H403 H409.
    rewrite (authenticate_other_status auth r s Hv H200 H401 H403 H409).
    destruct ((200 <=? status r)%Z && (status r <? 300)%Z);
      eexists; (split; [cbn; rewrite <- app_assoc; reflexivity|]);
      split; reflexivity.
Qed.

Lemma authenticate_single_outcome_witness :
  emitted (snd (authenticate fixedAuth (Responded (mkResponse 409 ∅ None None))
                             (new_iCloud false 80))) =
    [] ++ [AUTHENTICATION_STARTED; MFA_REQUIRED 80] /\
  emitted (snd (authenticate fixedAuth (Responded (mkResponse 200 ∅ None None))
                             (new_iCloud false 80))) =
    [] ++ [AUTHENTICATION_STARTED; TRUSTED].
Proof.
  split.
  - apply (proj1 (proj2 (authenticate_single_outcome
                           fixedAuth (mkResponse 409 ∅ None None) (new_iCloud false 80)
                           (mkAuthSecrets "session" "scnt" "aasp") eq_refl eq_refl))
                 eq_refl eq_refl).
  - apply (proj1 (authenticate_single_outcome
                    fixedAuth (mkResponse 200 ∅ None None) (new_iCloud false 80)
                    (mkAuthSecrets "session" "scnt" "aasp") eq_refl eq_refl)
                 eq_refl).
Defined.

(** *** Submitting and resending an MFA code *)

Lemma submitMFA_accepted (method : MFAMethod) (mfa : string) (net : NetOutcome)
    (s : iCloud) :
  accepted (enterSuccessful method) net = true ->
  submitMFA method mfa net s =
    (Returned tt, record_event AUTHENTICATED (set_mfaServer_running false s)).
Proof.
  destruct net as [m|r]; simpl; [discriminate|].
  intros H. apply andb_true_iff in H as [H2xx Hok].
  run_method. rewrite axios_request_resolves by exact H2xx.
  rewrite Hok. reflexivity.
Qed.

(** The cause of the error a failed submit emits. *)
Definition submit_failure (method : MFAMethod) (net : NetOutcome) : JSError :=
  match net with
  | NoResponse m => AxiosError m None
  | Responded r =>
      if (200 <=? status r)%Z && (status r <? 300)%Z then
        ICPS (addContext
                (iCloudError ("Received unexpected response status code ("
                              +:+ pretty (status r) +:+ ") during MFA validation"))
                "response" (VResponse r))
      else rejection r
  end.

Lemma submitMFA_failed (method : MFAMethod) (mfa : string) (net : NetOutcome)
    (s : iCloud) :
  accepted (enterSuccessful method) net = false ->
  submitMFA method mfa net s =
    (Returned tt,
     record_event
       (ERROR (VError (ICPS (addCause (iCloudError "Received error during MFA validation")
                                      (submit_failure method net)))))
       (set_mfaServer_running false s)).
Proof.
  destruct net as [m|r]; simpl; [reflexivity|].
  intros H. run_method.
  destruct ((200 <=? status r)%Z && (status r <? 300)%Z) eqn:H2xx.
  - simpl in H. rewrite axios_request_resolves by exact H2xx.
    rewrite H. reflexivity.
  - rewrite axios_request_rejects by exact H2xx. reflexivity.
Qed.

(** The cause of the warning a failed resend emits when the request was
    rejected, and the warning it emits when the validator of the method
    refuses the response. *)
Definition resend_warning (method : MFAMethod) (net : NetOutcome) : iCPSError :=
  match net with
  | NoResponse m =>
      addCause (iCloudWarning "Requesting MFA code failed")
               (processResendError method (AxiosError m None))
  | Responded r =>
      if (200 <=? status r)%Z && (status r <? 300)%Z then
        addContext (iCloudWarning "Unable to request new MFA code")
                   "response" (VResponse r)
      else
        addCause (iCloudWarning "Requesting MFA code failed")
                 (processResendError method (rejection r))
  end.

Lemma resendMFA_failed (method : MFAMethod) (net : NetOutcome) (s : iCloud) :
  accepted (resendSuccessful method) net = false ->
  resendMFA method net s =
    (Returned tt,
     record_event (HANDLER_EVENT (VError (ICPS (resend_warning method net)))) s).
Proof.
  destruct net as [m|r]; simpl; [reflexivity|].
  intros H. run_method.
  destruct ((200 <=? status r)%Z && (status r <? 300)%Z) eqn:H2xx.
  - simpl in H. rewrite axios_request_resolves by exact H2xx.
    rewrite H. reflexivity.
  - rewrite axios_request_rejects by exact H2xx. reflexivity.
Qed.

Lemma resend_warning_is_warning (method : MFAMethod) (net : NetOutcome) :
  cls (resend_warning method net) = Class_iCloudWarning /\
  sev (resend_warning method net) = WARN.
Proof.
  destruct net as [m|r]; simpl; [split; reflexivity|].
  destruct (_ && _); split; reflexivity.
Qed.

(** Whatever the outcome of the request, [resendMFA] emits nothing or one
    warning on [HANDLER_EVENT]; it never emits [ERROR], never touches the
    MFA server and never throws. *)
Lemma resendMFA_events (method : MFAMethod) (net : NetOutcome) (s : iCloud) :
  exists evs : list Event,
    resendMFA method net s =
      (Returned tt,
       mkiCloud (failOnMfa s) (iCloudAuthSecrets s) (mfaServer_port s)
                (mfaServer_running s) (emitted s ++ evs)) /\
    (evs = [] \/
     exists w, evs = [HANDLER_EVENT (VError (ICPS w))] /\
               cls w = Class_iCloudWarning /\ sev w = WARN).
Proof.
  destruct (accepted (resendSuccessful method) net) eqn:Hacc.
  - destruct net as [m|r]; simpl in Hacc; [discriminate|].
    apply andb_true_iff in Hacc as [H2xx Hok].
    run_method. rewrite axios_request_resolves by exact H2xx.
    rewrite Hok. cbn [negb].
    destruct (isSMS method || isVoice method).
    + destruct (data_trustedPhoneNumber r).
      * exists []. rewrite app_nil_r. destruct s. split; [reflexivity|]. now left.
      * eexists. split; [reflexivity|]. right. eexists. repeat split.
    + exists []. rewrite app_nil_r. destruct s, (isDevice method); split; try reflexivity; now left.
  - rewrite resendMFA_failed by exact Hacc.
    eexists. split; [reflexivity|]. right. eexists. split; [reflexivity|].
    apply resend_warning_is_warning.
Qed.

(** C3, as the claim states it, fails: a running MFA server is stopped by
    the submit of a code that is not validated (the response is a 401, the
    method approves nothing), and the submit ends in a fatal error. *)
Lemma submitMFA_wrong_code_stops_server_counterexample :
  accepted (enterSuccessful (strictMethod SMS))
           (Responded (mkResponse 401 ∅ None None)) = false /\
  mfaServer_running (mkiCloud false None 80 true [MFA_REQUIRED 80]) = true /\
  mfaServer_running
    (snd (submitMFA (strictMethod SMS) "123456"
            (Responded (mkResponse 401 ∅ None None))
            (mkiCloud false None 80 true [MFA_REQUIRED 80]))) = false /\
  emitted
    (snd (submitMFA (strictMethod SMS) "123456"
            (Responded (mkResponse 401 ∅ None None))
            (mkiCloud false None 80 true [MFA_REQUIRED 80]))) =
    [ MFA_REQUIRED 80;
      ERROR (VError (ICPS
        (addCause (iCloudError "Received error during MFA validation")
                  (rejection (mkResponse 401 ∅ None None))))) ].
Proof. repeat split. Qed.

(** C3, amended. After a submit the MFA server is stopped whether or not
    the code was validated: it does not keep running for a retry.  A
    validated code emits [AUTHENTICATED]; a submit that fails emits one
    fatal [iCloudError] on [ERROR] and no [AUTHENTICATED]. *)
Theorem submitMFA_always_stops_server
    (method : MFAMethod) (mfa : string) (net : NetOutcome) (s : iCloud) :
  mfaServer_running (snd (submitMFA method mfa net s)) = false /\
  (accepted (enterSuccessful method) net = true ->
     emitted (snd (submitMFA method mfa net s)) = emitted s ++ [AUTHENTICATED]) /\
  (accepted (enterSuccessful method) net = false ->
     exists e : iCPSError,
       emitted (snd (submitMFA method mfa net s)) =
         emitted s ++ [ERROR (VError (ICPS e))] /\
       cls e = Class_iCloudError /\ sev e = FATAL).
Proof.
  destruct (accepted (enterSuccessful method) net) eqn:Hacc.
  - rewrite submitMFA_accepted by exact Hacc.
    split; [reflexivity|]. split; [reflexivity|discriminate].
  - rewrite submitMFA_failed by exact Hacc.
    split; [reflexivity|]. split; [discriminate|].
    intros _. eexists. split; [reflexivity|]. split; reflexivity.
Qed.

Lemma submitMFA_always_stops_server_witness :
  emitted (snd (submitMFA (mkMFAMethod DEVICE (fun _ => true) (fun _ => true) (fun e => e))
                  "123456" (Responded (mkResponse 204 ∅ None None))
                  (mkiCloud false None 80 true [MFA_REQUIRED 80]))) =
    [MFA_REQUIRED 80] ++ [AUTHENTICATED].
Proof.
  apply (submitMFA_always_stops_server
           (mkMFAMethod DEVICE (fun _ => true) (fun _ => true) (fun e => e))
           "123456" (Responded (mkResponse 204 ∅ None None))
           (mkiCloud false None 80 true [MFA_REQUIRED 80])).
  reflexivity.
Defined.

(** C6. A failed resend of an MFA code surfaces one [iCloudWarning] of
    severity WARN on [HANDLER_EVENT]: no [ERROR] is emitted, the MFA server
    is left as it was, and the error handler passes the warning on to the
    warn event without reporting it.  A failed submit surfaces one
    [iCloudError] of severity FATAL on [ERROR], and [AUTHENTICATED] is not
    emitted. *)
Theorem failed_resend_warns_failed_submit_is_fatal
    (method : MFAMethod) (mfa : string) (net : NetOutcome) (s : iCloud) :
  (accepted (resendSuccessful method) net = false ->
     exists w : iCPSError,
       emitted (snd (resendMFA method net s)) =
         emitted s ++ [HANDLER_EVENT (VError (ICPS w))] /\
       cls w = Class_iCloudWarning /\ sev w = WARN /\
       fatalError (VError (ICPS w)) = false /\
       mfaServer_running (snd (resendMFA method net s)) = mfaServer_running s /\
       forall (node : ErrorHandler.Node) (errorUUID : string)
              (h : ErrorHandler.Handler),
         fst (ErrorHandler.handle node errorUUID (VError (ICPS w)) h) = Returned tt /\
         ErrorHandler.sent
           (snd (ErrorHandler.handle node errorUUID (VError (ICPS w)) h)) =
           ErrorHandler.sent h /\
         ErrorHandler.emitted
           (snd (ErrorHandler.handle node errorUUID (VError (ICPS w)) h)) =
           ErrorHandler.emitted h ++ [(ErrorHandler.WARN_EVENT, getDescription w)]) /\
  (accepted (enterSuccessful method) net = false ->
     exists e : iCPSError,
       emitted (snd (submitMFA method mfa net s)) =
         emitted s ++ [ERROR (VError (ICPS e))] /\
       cls e = Class_iCloudError /\ sev e = FATAL /\
       fatalError (VError (ICPS e)) = true).
Proof.
  split; intros Hacc.
  - rewrite resendMFA_failed by exact Hacc.
    destruct (resend_warning_is_warning method net) as [Hc Hs].
    exists (resend_warning method net).
    split; [reflexivity|]. split; [exact Hc|]. split; [exact Hs|].
    split; [unfold fatalError; cbn [instanceof_iCPSError]; rewrite Hs; reflexivity|].
    split; [reflexivity|].
    intros node errorUUID h.
    rewrite ErrorHandlerProps.handle_warning by exact Hs.
    split; [reflexivity|]. split; reflexivity.
  - rewrite submitMFA_failed by exact Hacc.
    eexists. split; [reflexivity|]. repeat split.
Qed.

Lemma failed_resend_warns_failed_submit_is_fatal_witness :
  (exists w : iCPSError,
     emitted (snd (resendMFA (strictMethod SMS) (NoResponse "timeout")
                             (mkiCloud false None 80 true [MFA_REQUIRED 80]))) =
       [MFA_REQUIRED 80] ++ [HANDLER_EVENT (VError (ICPS w))] /\
     sev w = WARN) /\
  (exists e : iCPSError,
     emitted (snd (submitMFA (strictMethod SMS) "000000" (NoResponse "timeout")
                             (mkiCloud false None 80 true [MFA_REQUIRED 80]))) =
       [MFA_REQUIRED 80] ++ [ERROR (VError (ICPS e))] /\
     sev e = FATAL).
Proof.
  destruct (failed_resend_warns_failed_submit_is_fatal
              (strictMethod SMS) "000000" (NoResponse "timeout")
              (mkiCloud false None 80 true [MFA_REQUIRED 80])) as [Hr Hs].
  split.
  - destruct (Hr eq_refl) as (w & Hev & _ & Hsev & _). exists w. split; assumption.
  - destruct (Hs eq_refl) as (e & Hev & _ & Hsev & _). exists e. split; assumption.
Defined.

End ICloudProps.

(** ** The library lock and the token flow ([icloud-app.ts]) *)

Module ICloudAppProps.
Import ErrorTypes Eff ICloudApp.

(** The two errors of a lock held by another process, and the error of a
    release without a lock. *)
Definition LockedError (lockingProcess : string) : JSError :=
  ICPS (LibraryError
    ("Locked by PID " +:+ lockingProcess
     +:+ ". Use --force (or FORCE env variable) to forcefully remove the lock")).

Definition LockedCannotReleaseError (lockingProcess : string) : JSError :=
  ICPS (LibraryError
    ("Locked by PID " +:+ lockingProcess
     +:+ ", cannot release. Use --force (or FORCE env variable) to forcefully remove the lock")).

Definition NoLockError : JSError :=
  ICPS (LibraryError "Unable to release library lock, no lock exists").

(** The app after it took the lock, and after it removed it. *)
Definition locked (a : App) : App :=
  set_dataDir (insert LIBRARY_LOCK_FILE (pretty (pid a))) a.

Definition unlocked (a : App) : App :=
  set_dataDir (delete LIBRARY_LOCK_FILE) a.

Lemma locked_lookup (a : App) :
  dataDir (locked a) !! LIBRARY_LOCK_FILE = Some (pretty (pid a)) /\
  forall f : string, f <> LIBRARY_LOCK_FILE ->
    dataDir (locked a) !! f = dataDir a !! f.
Proof.
  split.
  - apply lookup_insert_eq.
  - intros f Hf. apply lookup_insert_ne. congruence.
Qed.

Lemma unlocked_lookup (a : App) :
  dataDir (unlocked a) !! LIBRARY_LOCK_FILE = None /\
  forall f : string, f <> LIBRARY_LOCK_FILE ->
    dataDir (unlocked a) !! f = dataDir a !! f.
Proof.
  split.
  - apply lookup_delete_eq.
  - intros f Hf. apply lookup_delete_ne. congruence.
Qed.

(** [acquireLibraryLock] by cases on the lock file and on [force]. *)
Lemma acquireLibraryLock_absent (a : App) :
  dataDir a !! LIBRARY_LOCK_FILE = None ->
  acquireLibraryLock a = (Returned tt, locked a).
Proof. intros H. unfold acquireLibraryLock, bind, get. rewrite H. reflexivity. Qed.

Lemma acquireLibraryLock_conflict (a : App) (lockingProcess : string) :
  dataDir a !! LIBRARY_LOCK_FILE = Some lockingProcess ->
  lockingProcess <> pretty (pid a) ->
  force a = false ->
  acquireLibraryLock a = (Thrown (LockedError lockingProcess), a).
Proof.
  intros H Hne Hf. unfold acquireLibraryLock, bind, get. rewrite H, Hf.
  apply String.eqb_neq in Hne. rewrite Hne. reflexivity.
Qed.

Lemma acquireLibraryLock_force (a : App) :
  force a = true ->
  acquireLibraryLock a = (Returned tt, locked a).
Proof.
  intros Hf. unfold acquireLibraryLock, bind, get. rewrite Hf.
  destruct (dataDir a !! LIBRARY_LOCK_FILE); [|reflexivity].
  rewrite andb_false_r. reflexivity.
Qed.


(** C2. With no lock file, [acquireLibraryLock] creates it with the pid of
    the process; with a lock file that holds another pid and without
    [force], it fails with the [LibraryError] that names this pid and
    leaves the data directory as it is; with [force], the lock file holds
    the pid of the process afterwards.  No other file is touched. *)
Theorem acquireLibraryLock_spec (a : App) :
  (dataDir a !! LIBRARY_LOCK_FILE = None ->
     acquireLibraryLock a = (Returned tt, locked a)) /\
  (forall lockingProcess : string,
     dataDir a !! LIBRARY_LOCK_FILE = Some lockingProcess ->
     lockingProcess <> pretty (pid a) ->
     force a = false ->
     acquireLibraryLock a = (Thrown (LockedError lockingProcess), a)) /\
  (force a = true ->
     acquireLibraryLock a = (Returned tt, locked a)) /\
  dataDir (locked a) !! LIBRARY_LOCK_FILE = Some (pretty (pid a)) /\
  (forall f : string, f <> LIBRARY_LOCK_FILE ->
     dataDir (locked a) !! f = dataDir a !! f).
Proof.
  split; [apply acquireLibraryLock_absent|].
  split; [apply acquireLibraryLock_conflict|].
  split; [apply acquireLibraryLock_force|].
  apply locked_lookup.
Qed.

Lemma acquireLibraryLock_spec_witness :
  acquireLibraryLock (mkApp false 4711 {[ LIBRARY_LOCK_FILE := "4712" ]} []) =
    (Thrown (LockedError "4712"),
     mkApp false 4711 {[ LIBRARY_LOCK_FILE := "4712" ]} []) /\
  acquireLibraryLock (mkApp true 4711 {[ LIBRARY_LOCK_FILE := "4712" ]} []) =
    (Returned tt, locked (mkApp true 4711 {[ LIBRARY_LOCK_FILE := "4712" ]} [])) /\
  acquireLibraryLock (mkApp false 4711 ∅ []) =
    (Returned tt, locked (mkApp false 4711 ∅ [])).
Proof.
  split; [|split].
  - apply (proj1 (proj2 (acquireLibraryLock_spec
                           (mkApp false 4711 {[ LIBRARY_LOCK_FILE := "4712" ]} [])))).
    + reflexivity.
    + vm_compute. discriminate.
    + reflexivity.
  - apply (proj1 (proj2 (proj2 (acquireLibraryLock_spec
                           (mkApp true 4711 {[ LIBRARY_LOCK_FILE := "4712" ]} []))))).
    reflexivity.
  - apply (proj1 (acquireLibraryLock_spec (mkApp false 4711 ∅ []))).
    reflexivity.
Defined.

(** [releaseLibraryLock] by cases on the lock file and on [force]. *)
Lemma releaseLibraryLock_absent (a : App) :
  dataDir a !! LIBRARY_LOCK_FILE = None ->
  releaseLibraryLock a = (Thrown NoLockError, a).
Proof. intros H. unfold releaseLibraryLock, bind, get. rewrite H. reflexivity. Qed.

Lemma releaseLibraryLock_conflict (a : App) (lockingProcess : string) :
  dataDir a !! LIBRARY_LOCK_FILE = Some lockingProcess ->
  lockingProcess <> pretty (pid a) ->
  force a = false ->
  releaseLibraryLock a = (Thrown (LockedCannotReleaseError lockingProcess), a).
Proof.
  intros H Hne Hf. unfold releaseLibraryLock, bind, get. rewrite H, Hf.
  apply String.eqb_neq in Hne. rewrite Hne. reflexivity.
Qed.

Lemma releaseLibraryLock_force (a : App) (lockingProcess : string) :
  dataDir a !! LIBRARY_LOCK_FILE = Some lockingProcess ->
  force a = true ->
  releaseLibraryLock a = (Returned tt, unlocked a).
Proof.
  intros H Hf. unfold releaseLibraryLock, bind, get. rewrite H, Hf.
  rewrite andb_false_r. reflexivity.
Qed.

Lemma releaseLibraryLock_own (a : App) :
  dataDir a !! LIBRARY_LOCK_FILE = Some (pretty (pid a)) ->
  releaseLibraryLock a = (Returned tt, unlocked a).
Proof.
  intros H. unfold releaseLibraryLock, bind, get. rewrite H.
  rewrite String.eqb_refl. reflexivity.
Qed.

(** C7. With a lock file that holds another pid and without [force],
    [releaseLibraryLock] fails with a [LibraryError] and leaves the data
    directory as it is; with [force], and with the lock of the process
    itself, the lock file is unlinked; with no lock file it fails with the
    no-lock [LibraryError], which differs from the error of a foreign
    lock. *)
Theorem releaseLibraryLock_spec (a : App) :
  (forall lockingProcess : string,
     dataDir a !! LIBRARY_LOCK_FILE = Some lockingProcess ->
     lockingProcess <> pretty (pid a) ->
     force a = false ->
     releaseLibraryLock a = (Thrown (LockedCannotReleaseError lockingProcess), a)) /\
  (forall lockingProcess : string,
     dataDir a !! LIBRARY_LOCK_FILE = Some lockingProcess ->
     force a = true ->
     releaseLibraryLock a = (Returned tt, unlocked a)) /\
  (dataDir a !! LIBRARY_LOCK_FILE = Some (pretty (pid a)) ->
     releaseLibraryLock a = (Returned tt, unlocked a)) /\
  (dataDir a !! LIBRARY_LOCK_FILE = None ->
     releaseLibraryLock a = (Thrown NoLockError, a)) /\
  dataDir (unlocked a) !! LIBRARY_LOCK_FILE = None /\
  (forall f : string, f <> LIBRARY_LOCK_FILE ->
     dataDir (unlocked a) !! f = dataDir a !! f) /\
  (forall lockingProcess : string,
     NoLockError <> LockedCannotReleaseError lockingProcess).
Proof.
  split; [apply releaseLibraryLock_conflict|].
  split; [apply releaseLibraryLock_force|].
  split; [apply releaseLibraryLock_own|].
  split; [apply releaseLibraryLock_absent|].
  split; [apply unlocked_lookup|].
  split; [apply unlocked_lookup|].
  intros p. unfold NoLockError, LockedCannotReleaseError, LibraryError, new_iCPSError.
  cbn. discriminate.
Qed.

Lemma releaseLibraryLock_spec_witness :
  releaseLibraryLock (mkApp false 4711 {[ LIBRARY_LOCK_FILE := "4712" ]} []) =
    (Thrown (LockedCannotReleaseError "4712"),
     mkApp false 4711 {[ LIBRARY_LOCK_FILE := "4712" ]} []) /\
  releaseLibraryLock (mkApp true 4711 {[ LIBRARY_LOCK_FILE := "4712" ]} []) =
    (Returned tt, unlocked (mkApp true 4711 {[ LIBRARY_LOCK_FILE := "4712" ]} [])) /\
  releaseLibraryLock (mkApp false 4711 ∅ []) =
    (Thrown NoLockError, mkApp false 4711 ∅ []).
Proof.
  split; [|split].
  - apply (proj1 (releaseLibraryLock_spec
                    (mkApp false 4711 {[ LIBRARY_LOCK_FILE := "4712" ]} []))).
    + reflexivity.
    + vm_compute. discriminate.
    + reflexivity.
  - apply (proj1 (proj2 (releaseLibraryLock_spec
                    (mkApp true 4711 {[ LIBRARY_LOCK_FILE := "4712" ]} []))) "4712");
      reflexivity.
  - apply (proj1 (proj2 (proj2 (proj2 (releaseLibraryLock_spec
                    (mkApp false 4711 ∅ [])))))).
    reflexivity.
Defined.

(** *** The token flow *)


(** The unit test "Handle lock acquisition error": the lock acquisition
    rejects with a plain [Error], the other two methods resolve.  The run
    rejects with the message the test expects, lock and release were
    called once, [authenticate] was not called. *)
Example TokenApp_run_unit_test :
  TokenApp_run (mkMethods (throw (PlainError "Error" "")) (ret tt) (ret tt))
               (mkApp false 4711 ∅ []) =
    (Thrown (ICPS (addCause (LibraryError "Unable to get trust token")
                            (PlainError "Error" ""))),
     mkApp false 4711 ∅ [CallAcquireLibraryLock; CallReleaseLibraryLock]).
Proof. reflexivity. Qed.





End ICloudAppProps.

(** ** Further properties of [error-types.ts] *)

Module ErrorTypesMore.
Import ErrorTypes.

(** The [iCPSError]s of a cause chain, outermost first: the error, its
    cause when that is an [iCPSError], the cause of the cause, and so on. *)
Fixpoint causeChain (e : iCPSError) : list iCPSError :=
  match e with
  | mkiCPSError _ _ _ cs _ =>
      e :: match cs with
           | Some (ICPS i) => causeChain i
           | _ => []
           end
  end.

(** The error with every context of its cause chain emptied. *)
Fixpoint stripContext (e : iCPSError) : iCPSError :=
  match e with
  | mkiCPSError c m s cs _ =>
      mkiCPSError c m s
        match cs with
        | Some (ICPS i) => Some (ICPS (stripContext i))
        | other => other
        end
        ∅
  end.

(** [fatalError] and [toiCPSError] agree: a value is classified as fatal
    exactly when its conversion has severity FATAL. *)
Theorem fatalError_agrees_with_toiCPSError (err : Value) :
  fatalError err = Severity_eqb (sev (toiCPSError err)) FATAL.
Proof.
  destruct err as [| |b|n|s|fields|r|[n m|m r|[c m s cs ctx]]];
    try reflexivity.
  destruct s; reflexivity.
Qed.

(** A key is missing from [getContext()] exactly when it is missing from
    the context of every [iCPSError] of the cause chain: no key is lost. *)
Theorem getContext_None_iff (e : iCPSError) (k : string) :
  getContext e !! k = None <->
  forall i : iCPSError, In i (causeChain e) -> context i !! k = None.
Proof.
  revert e. fix IH 1. intros [c m s cs ctx].
  destruct cs as [[n m'|m' r|i]|]; cbn [getContext causeChain].
  1,2,4: split;
    [ intros H i [<-|[]]; exact H
    | intros H; exact (H _ (or_introl eq_refl)) ].
  rewrite lookup_union_None. split.
  - intros [Hi Hc] j [<-|Hj]; [exact Hc|].
    apply (proj1 (IH i)); assumption.
  - intros H. split.
    + apply (proj2 (IH i)). intros j Hj. apply H. right. exact Hj.
    + exact (H _ (or_introl eq_refl)).
Qed.



(** The description of an error does not depend on any context of its
    cause chain: what [addContext] stores (HTTP responses, unknown thrown
    values) never shows in the description. *)
Theorem getDescription_ignores_context (e : iCPSError) :
  getDescription (stripContext e) = getDescription e.
Proof.
  revert e. fix IH 1. intros [c m s cs ctx].
  destruct cs as [[n m'|m' r|i]|]; cbn [stripContext getDescription];
    try reflexivity.
  rewrite (IH i). reflexivity.
Qed.

(** What [handle] will print for a value that is no [iCPSError]: the
    message of a plain [Error] follows "Unknown error caused by"; a value
    that is no [Error] leaves no trace in the description. *)
Theorem getDescription_of_unknown (err : Value) :
  instanceof_iCPSError err = None ->
  getDescription (toiCPSError err) =
    match instanceof_Error err with
    | Some e => "iCPSError (FATAL): Unknown error caused by " +:+ JSError_message e
    | None => "iCPSError (FATAL): Unknown error"
    end.
Proof.
  destruct err as [| |b|n|s|fields|r|[n m|m r|i]]; try reflexivity.
  discriminate.
Qed.

Lemma getDescription_of_unknown_witness :
  getDescription (toiCPSError (VString "boom")) = "iCPSError (FATAL): Unknown error" /\
  getDescription (toiCPSError (VError (PlainError "TypeError" "x is undefined"))) =
    "iCPSError (FATAL): Unknown error caused by x is undefined".
Proof.
  split.
  - apply (getDescription_of_unknown (VString "boom")). reflexivity.
  - apply (getDescription_of_unknown
             (VError (PlainError "TypeError" "x is undefined"))).
    reflexivity.
Defined.

End ErrorTypesMore.

(** ** Further properties of [error-handler.ts] *)

Module ErrorHandlerMore.
Import ErrorTypes ErrorHandler.

(** [handle] writes the log line of a message exactly when it has emitted
    the message.  When it returns, it has emitted one event and written
    one log line, both with the same message; the event is the error event
    and the level is error exactly when [iCPSError.fatalError] classifies
    the value as fatal.  When it throws, it has emitted nothing and logged
    nothing; this happens for fatal values only, and only when the error
    event has no listener or [JSON.stringify] has thrown. *)
Theorem handle_event_and_log_agree
    (node : Node) (errorUUID : string) (err : Value) (h : Handler) :
  match fst (handle node errorUUID err h) with
  | Eff.Returned _ =>
      exists msg : string,
        emitted (snd (handle node errorUUID err h)) =
          emitted h ++ [(if fatalError err then ERROR_EVENT else WARN_EVENT, msg)] /\
        logged (snd (handle node errorUUID err h)) =
          logged h ++ [(if fatalError err then LogError else LogWarn, msg)]
  | Eff.Thrown _ =>
      fatalError err = true /\
      (has_listener ERROR_EVENT h = false \/
       btClient h = true /\
       exists thrown : JSError,
         JSON_stringify node (getContext (toiCPSError err)) = inl thrown) /\
      emitted (snd (handle node errorUUID err h)) = emitted h /\
      logged (snd (handle node errorUUID err h)) = logged h
  end.
Proof.
  assert (Hf : fatalError err = Severity_eqb (sev (toiCPSError err)) FATAL).
  { destruct err as [| |b|n|s|fields|r|[n m|m r|[c m s cs ctx]]];
      try reflexivity. destruct s; reflexivity. }
  rewrite Hf. ErrorHandlerProps.run_handler. unfold has_listener.
  destruct (sev (toiCPSError err));
    destruct (instanceof_InterruptError (toiCPSError err));
    destruct (btClient h) eqn:Hb;
    destruct (JSON_stringify node (getContext (toiCPSError err))) as [x|t];
    destruct (existsb (String.eqb "error") (listeners h)) eqn:Hl;
    cbn [Severity_eqb andb negb];
    repeat (progress
              (cbn [negb fst snd sent emitted logged sendAsync record_emit
                    record_log btClient listeners];
               rewrite ?Hb, ?Hl));
    first
      [ eexists; split; reflexivity
      | split; [reflexivity|]; split; [left; reflexivity|]; split; reflexivity
      | split; [reflexivity|];
        split; [right; split; [reflexivity|eexists; reflexivity]|];
        split; reflexivity ].
Qed.

(** *** [findIndex] *)

Lemma findIndex_range {A} (p : A -> bool) (a : list A) :
  (-1 <= findIndex p a < Z.of_nat (length a))%Z.
Proof.
  induction a as [|x a IH]; cbn [findIndex length]; [lia|].
  destruct (p x); [lia|].
  destruct (findIndex p a =? -1)%Z eqn:E; lia.
Qed.

Lemma findIndex_none {A} (p : A -> bool) (a : list A) :
  findIndex p a = (-1)%Z <-> forall k x, a !! k = Some x -> p x = false.
Proof.
  induction a as [|x a IH]; cbn [findIndex].
  - split; [intros _ k y Hk; destruct k; discriminate|reflexivity].
  - destruct (p x) eqn:Hp.
    + split; [discriminate|]. intros H. specialize (H 0%nat x eq_refl). congruence.
    + pose proof (findIndex_range p a) as Hr.
      destruct (findIndex p a =? -1)%Z eqn:E.
      * apply Z.eqb_eq in E. split; [|reflexivity].
        intros _ [|k] y Hk; [cbn in Hk; congruence|].
        apply (proj1 IH E k y Hk).
      * apply Z.eqb_neq in E. split; [lia|].
        intros H. exfalso. apply E, IH. intros k y Hk. apply (H (S k) y Hk).
Qed.

Lemma findIndex_some {A} (p : A -> bool) (a : list A) (i : nat) :
  findIndex p a = Z.of_nat i <->
  (exists x, a !! i = Some x /\ p x = true) /\
  (forall j y, (j < i)%nat -> a !! j = Some y -> p y = false).
Proof.
  revert i. induction a as [|x a IH]; intros i; cbn [findIndex].
  - split; [lia|]. intros [(y & Hy & _) _]. destruct i; discriminate.
  - destruct (p x) eqn:Hp.
    + split.
      * intros H. assert (i = 0%nat) by lia. subst i. split; [eauto|]. lia.
      * intros [_ Hlt]. destruct i as [|i]; [reflexivity|].
        specialize (Hlt 0%nat x ltac:(lia) eq_refl). congruence.
    + pose proof (findIndex_range p a) as Hr.
      destruct (findIndex p a =? -1)%Z eqn:E.
      * apply Z.eqb_eq in E. split; [lia|].
        intros [(y & Hy & Hpy) _]. destruct i as [|i]; cbn in Hy; [congruence|].
        rewrite (proj1 (findIndex_none p a) E i y Hy) in Hpy. discriminate.
      * apply Z.eqb_neq in E. destruct i as [|i].
        { split; [lia|]. intros [(y & Hy & Hpy) _]. cbn in Hy. congruence. }
        split.
        -- intros H. assert (Hi : findIndex p a = Z.of_nat i) by lia.
           apply IH in Hi as [Hex Hlt]. split; [exact Hex|].
           intros [|j] y Hj Hy; [cbn in Hy; congruence|].
           apply (Hlt j y); [lia|exact Hy].
        -- intros [Hex Hlt].
           assert (Hi : findIndex p a = Z.of_nat i).
           { apply IH. split; [exact Hex|]. intros j y Hj Hy.
             apply (Hlt (S j) y); [lia|exact Hy]. }
           lia.
Qed.

Lemma findIndex_cases {A} (p : A -> bool) (a : list A) :
  findIndex p a = (-1)%Z \/ exists i : nat, findIndex p a = Z.of_nat i.
Proof.
  pose proof (findIndex_range p a) as Hr.
  destruct (Z.eq_dec (findIndex p a) (-1)) as [E|E]; [left; exact E|right].
  exists (Z.to_nat (findIndex p a)). lia.
Qed.

(** [findIndex] only looks at where the predicate holds. *)
Lemma findIndex_ext {A} (p : A -> bool) (a b : list A) :
  (forall k, (exists x, a !! k = Some x /\ p x = true) <->
             (exists x, b !! k = Some x /\ p x = true)) ->
  findIndex p a = findIndex p b.
Proof.
  intros H. destruct (findIndex_cases p b) as [E|[i E]]; rewrite E.
  - apply findIndex_none. intros k x Hk.
    destruct (p x) eqn:Hp; [|reflexivity].
    destruct (proj1 (H k) (ex_intro _ x (conj Hk Hp))) as (y & Hy & Hpy).
    rewrite (proj1 (findIndex_none p b) E k y Hy) in Hpy. discriminate.
  - apply findIndex_some in E as [Hex Hlt]. apply findIndex_some. split.
    + apply H. exact Hex.
    + intros j y Hj Hy. destruct (p y) eqn:Hp; [|reflexivity].
      destruct (proj1 (H j) (ex_intro _ y (conj Hy Hp))) as (z & Hz & Hpz).
      rewrite (Hlt j z Hj Hz) in Hpz. discriminate.
Qed.

(** *** What [cleanEnv] does to [process.argv] *)

(** The placeholders and the flags of [confidentialData]. *)
Definition placeholders : list string :=
  Eval cbv in map entry_replacement confidentialData.

Definition flags : list string :=
  Eval cbv in concat (map entry_cli confidentialData).

Lemma array_set_lookup_eq (a : list (option string)) (i : Z) (v : string) :
  array_set a i v !! Z.to_nat i = Some (Some v).
Proof.
  unfold array_set. destruct (Z.to_nat i <? length a)%nat eqn:E.
  - apply Nat.ltb_lt in E. apply list_lookup_insert_eq. exact E.
  - apply Nat.ltb_ge in E.
    rewrite lookup_app_r by exact E.
    rewrite lookup_app_r by (rewrite length_replicate; lia).
    rewrite length_replicate.
    replace (Z.to_nat i - length a - (Z.to_nat i - length a))%nat with 0%nat by lia.
    reflexivity.
Qed.

Lemma array_set_lookup_ne (a : list (option string)) (i : Z) (v : string) (k : nat) :
  k <> Z.to_nat i ->
  array_set a i v !! k =
    if (k <? length a)%nat then a !! k
    else if (k <? Z.to_nat i)%nat then Some None else None.
Proof.
  intros Hk. unfold array_set. destruct (Z.to_nat i <? length a)%nat eqn:E.
  - apply Nat.ltb_lt in E. rewrite list_lookup_insert_ne by congruence.
    destruct (k <? length a)%nat eqn:Ek; [reflexivity|].
    apply Nat.ltb_ge in Ek. rewrite lookup_ge_None_2 by exact Ek.
    destruct (k <? Z.to_nat i)%nat eqn:Ei; [|reflexivity].
    apply Nat.ltb_lt in Ei. lia.
  - apply Nat.ltb_ge in E.
    destruct (k <? length a)%nat eqn:Ek.
    + apply Nat.ltb_lt in Ek. apply lookup_app_l. exact Ek.
    + apply Nat.ltb_ge in Ek. rewrite lookup_app_r by exact Ek.
      destruct (k <? Z.to_nat i)%nat eqn:Ei.
      * apply Nat.ltb_lt in Ei.
        rewrite lookup_app_l by (rewrite length_replicate; lia).
        apply lookup_replicate_2. lia.
      * apply Nat.ltb_ge in Ei.
        rewrite lookup_app_r by (rewrite length_replicate; lia).
        rewrite length_replicate.
        apply lookup_ge_None_2. cbn. lia.
Qed.

(** One pass of the inner loop, seen from [argv]; [x] is [execArgv]. *)
Definition argv_step (x : list (option string)) (replacement : string)
    (a : list (option string)) (flag : string) : list (option string) :=
  let i := findIndex (is_flag flag) a in
  let a1 := if negb (i =? -1)%Z then array_set a (i + 1) replacement else a in
  let j := findIndex (is_flag flag) x in
  if negb (j =? -1)%Z then array_set a1 (j + 1) replacement else a1.

Lemma cleanCliValue_argv (replacement flag : string) (p : Process) :
  argv (cleanCliValue replacement p flag) =
    argv_step (execArgv p) replacement (argv p) flag.
Proof.
  unfold cleanCliValue, argv_step.
  destruct (negb (findIndex (is_flag flag) (argv p) =? -1)%Z); cbn;
    destruct (negb (findIndex (is_flag flag) (execArgv p) =? -1)%Z); reflexivity.
Qed.

Lemma cleanEntry_argv (entry : ConfidentialEntry) (p : Process) :
  argv (cleanEntry p entry) =
    foldl (argv_step (execArgv p) (entry_replacement entry)) (argv p)
          (entry_cli entry).
Proof.
  unfold cleanEntry.
  set (p0 := if env_truthy p (entry_env entry) then _ else p).
  assert (Ha : argv p0 = argv p) by (subst p0; destruct (env_truthy _ _); reflexivity).
  assert (Hx : execArgv p0 = execArgv p) by (subst p0; destruct (env_truthy _ _); reflexivity).
  rewrite <- Ha, <- Hx. clearbody p0. clear Ha Hx.
  generalize dependent p0.
  induction (entry_cli entry) as [|flag fl IH]; intros p0; cbn [foldl]; [reflexivity|].
  rewrite IH, ErrorHandlerProps.cleanCliValue_execArgv, cleanCliValue_argv.
  reflexivity.
Qed.

(** [cleanEnv] seen from [argv]: the six flags are gone through in the
    order of [confidentialData], each with the placeholder of its entry. *)
Lemma cleanEnv_argv (p : Process) :
  argv (cleanEnv p) =
    foldl (fun a fr => argv_step (execArgv p) (snd fr) a (fst fr)) (argv p)
      [ ("-u", "<APPLE ID USERNAME>"); ("--username", "<APPLE ID USERNAME>");
        ("-p", "<APPLE ID PASSWORD>"); ("--password", "<APPLE ID PASSWORD>");
        ("-T", "<TRUST TOKEN>"); ("--trust-token", "<TRUST TOKEN>") ].
Proof.
  unfold cleanEnv, confidentialData. cbn [foldl].
  rewrite !cleanEntry_argv, !ErrorHandlerProps.cleanEntry_execArgv.
  reflexivity.
Qed.

(** [a'] keeps every element of [a] in place or has a placeholder there;
    past the end of [a] it has nothing, empty slots or placeholders. *)
Definition kept_or_placeholder (a a' : list (option string)) : Prop :=
  forall k : nat,
    match a !! k with
    | Some v =>
        a' !! k = Some v \/ exists R, In R placeholders /\ a' !! k = Some (Some R)
    | None =>
        a' !! k = None \/ a' !! k = Some None \/
        exists R, In R placeholders /\ a' !! k = Some (Some R)
    end.

Lemma kept_or_placeholder_refl (a : list (option string)) :
  kept_or_placeholder a a.
Proof. intros k. destruct (a !! k); left; reflexivity. Qed.

Lemma kept_or_placeholder_trans (a b c : list (option string)) :
  kept_or_placeholder a b -> kept_or_placeholder b c -> kept_or_placeholder a c.
Proof.
  intros Hab Hbc k. specialize (Hab k). specialize (Hbc k).
  destruct (a !! k) as [v|].
  - destruct Hab as [Hb|(R & HR & Hb)]; rewrite Hb in Hbc; [exact Hbc|].
    destruct Hbc as [Hc|Hc]; right; [exists R; split; assumption|exact Hc].
  - destruct Hab as [Hb|[Hb|(R & HR & Hb)]]; rewrite Hb in Hbc.
    + exact Hbc.
    + destruct Hbc as [Hc|Hc]; right; [left; exact Hc|right; exact Hc].
    + destruct Hbc as [Hc|Hc]; right; right; [exists R; split; assumption|exact Hc].
Qed.

Lemma kept_or_placeholder_array_set (a : list (option string)) (i : Z) (R : string) :
  In R placeholders -> kept_or_placeholder a (array_set a i R).
Proof.
  intros HR k. destruct (Nat.eq_dec k (Z.to_nat i)) as [->|Hk].
  - rewrite array_set_lookup_eq.
    destruct (a !! Z.to_nat i); [right|right; right]; exists R; split; auto.
  - rewrite array_set_lookup_ne by exact Hk.
    destruct (k <? length a)%nat eqn:Ek.
    + destruct (a !! k); left; reflexivity.
    + apply Nat.ltb_ge in Ek. rewrite lookup_ge_None_2 by exact Ek.
      destruct (k <? Z.to_nat i)%nat; [right; left|left]; reflexivity.
Qed.

Lemma kept_or_placeholder_step (x a : list (option string)) (R F : string) :
  In R placeholders -> kept_or_placeholder a (argv_step x R a F).
Proof.
  intros HR. unfold argv_step.
  set (a1 := if negb (findIndex (is_flag F) a =? -1)%Z then _ else a).
  assert (H1 : kept_or_placeholder a a1).
  { subst a1. destruct (negb _);
      [apply kept_or_placeholder_array_set; exact HR|apply kept_or_placeholder_refl]. }
  destruct (negb (findIndex (is_flag F) x =? -1)%Z); [|exact H1].
  eapply kept_or_placeholder_trans; [exact H1|].
  apply kept_or_placeholder_array_set. exact HR.
Qed.

(** Whatever [argv] and [execArgv] hold, [cleanEnv] writes nothing but the
    three placeholders into [argv]: every argument is kept at its index or
    replaced by a placeholder, and a string found in [argv] afterwards was
    there before, at the same index, or is a placeholder. *)
Theorem cleanEnv_argv_kept_or_placeholder (p : Process) (k : nat) :
  (forall v, argv p !! k = Some v ->
     argv (cleanEnv p) !! k = Some v \/
     exists R, In R placeholders /\ argv (cleanEnv p) !! k = Some (Some R)) /\
  (forall s, argv (cleanEnv p) !! k = Some (Some s) ->
     argv p !! k = Some (Some s) \/ In s placeholders).
Proof.
  assert (H : kept_or_placeholder (argv p) (argv (cleanEnv p))).
  { rewrite cleanEnv_argv. generalize (argv p) as a.
    cbn [foldl fst snd]. intros a.
    repeat (eapply kept_or_placeholder_trans;
            [|apply kept_or_placeholder_step; cbv; tauto]).
    apply kept_or_placeholder_refl. }
  specialize (H k). split.
  - intros v Hv. rewrite Hv in H. exact H.
  - intros s Hs. destruct (argv p !! k) as [v|].
    + destruct H as [H|(R & HR & H)]; rewrite H in Hs.
      * left. exact Hs.
      * right. congruence.
    + destruct H as [H|[H|(R & HR & H)]]; rewrite H in Hs; try discriminate.
      right. congruence.
Qed.

Lemma is_flag_true (F : string) (v : option string) :
  is_flag F v = true <-> v = Some F.
Proof.
  destruct v as [w|]; cbn; [|split; discriminate].
  rewrite String.eqb_eq. split; congruence.
Qed.

(** The six passes over [argv] when [execArgv] holds no flag. *)
Section WellFormedCommandLine.

Variable a0 : list (option string).

(** The list holds the same flags at the same places as [a0]. *)
Definition same_flags (a : list (option string)) : Prop :=
  forall k F, In F flags -> (a !! k = Some (Some F) <-> a0 !! k = Some (Some F)).

(** No flag of [a0] is directly followed by a flag. *)
Hypothesis flag_values :
  forall k F G, In F flags -> In G flags ->
    a0 !! k = Some (Some F) -> a0 !! S k <> Some (Some G).

Lemma same_flags_findIndex (a : list (option string)) (F : string) :
  In F flags -> same_flags a ->
  findIndex (is_flag F) a = findIndex (is_flag F) a0.
Proof.
  intros HF Hs. apply findIndex_ext. intros k. split.
  - intros (v & Hv & Hp). apply is_flag_true in Hp. subst v.
    exists (Some F). split; [apply Hs; assumption|apply is_flag_true; reflexivity].
  - intros (v & Hv & Hp). apply is_flag_true in Hp. subst v.
    exists (Some F). split; [apply Hs; assumption|apply is_flag_true; reflexivity].
Qed.

Lemma argv_step_nil (a : list (option string)) (F R : string) :
  argv_step [] R a F =
    if negb (findIndex (is_flag F) a =? -1)%Z
    then array_set a (findIndex (is_flag F) a + 1) R else a.
Proof. reflexivity. Qed.

Lemma argv_step_no_flag (x a : list (option string)) (F R : string) :
  findIndex (is_flag F) x = (-1)%Z ->
  argv_step x R a F = argv_step [] R a F.
Proof.
  intros E. rewrite argv_step_nil. unfold argv_step. rewrite E. reflexivity.
Qed.

(** A pass for a flag that occurs first at index [n]: only the element
    after it changes. *)
Lemma argv_step_at (a : list (option string)) (F R : string) (n : nat) :
  In F flags -> same_flags a ->
  findIndex (is_flag F) a0 = Z.of_nat n ->
  forall k, argv_step [] R a F !! k =
            if decide (k = S n) then Some (Some R) else a !! k.
Proof.
  intros HF Hs Hn k. rewrite argv_step_nil.
  rewrite (same_flags_findIndex a F HF Hs), Hn.
  replace (Z.of_nat n =? -1)%Z with false by (symmetry; apply Z.eqb_neq; lia).
  cbn [negb].
  assert (Hlen : (n < length a)%nat).
  { apply findIndex_some in Hn as [(v & Hv & Hp) _].
    apply is_flag_true in Hp. subst v.
    apply (lookup_lt_Some a n (Some F)). apply Hs; assumption. }
  replace (S n) with (Z.to_nat (Z.of_nat n + 1)) by lia.
  destruct (decide (k = Z.to_nat (Z.of_nat n + 1))) as [->|Hk].
  - apply array_set_lookup_eq.
  - rewrite array_set_lookup_ne by exact Hk.
    destruct (k <? length a)%nat eqn:Ek; [reflexivity|].
    apply Nat.ltb_ge in Ek.
    replace (k <? Z.to_nat (Z.of_nat n + 1))%nat with false
      by (symmetry; apply Nat.ltb_ge; lia).
    symmetry. apply lookup_ge_None_2. exact Ek.
Qed.

Lemma argv_step_absent (a : list (option string)) (F R : string) :
  In F flags -> same_flags a ->
  findIndex (is_flag F) a0 = (-1)%Z ->
  argv_step [] R a F = a.
Proof.
  intros HF Hs Hn. rewrite argv_step_nil.
  rewrite (same_flags_findIndex a F HF Hs), Hn. reflexivity.
Qed.

Lemma argv_step_same_flags (a : list (option string)) (F R : string) :
  In F flags -> ~ In R flags -> same_flags a ->
  same_flags (argv_step [] R a F).
Proof.
  intros HF HR Hs.
  destruct (findIndex_cases (is_flag F) a0) as [E|[n E]].
  - rewrite argv_step_absent by assumption. exact Hs.
  - intros k G HG. rewrite (argv_step_at a F R n HF Hs E).
    destruct (decide (k = S n)) as [->|Hk]; [|apply Hs; exact HG].
    split.
    + intros H. exfalso. apply HR. congruence.
    + intros H. exfalso.
      apply findIndex_some in E as [(v & Hv & Hp) _].
      apply is_flag_true in Hp. subst v.
      exact (flag_values n F G HF HG Hv H).
Qed.

(** The passes for a list of flags with their placeholders. *)
Definition passes (steps : list (string * string)) (a : list (option string))
    : list (option string) :=
  foldl (fun a fr => argv_step [] (snd fr) a (fst fr)) a steps.

Lemma passes_same_flags (steps : list (string * string)) (a : list (option string)) :
  (forall F R, In (F, R) steps -> In F flags /\ ~ In R flags) ->
  same_flags a -> same_flags (passes steps a).
Proof.
  revert a. induction steps as [|[F R] steps IH]; intros a Hst Hs; [exact Hs|].
  cbn [passes foldl fst snd]. apply IH.
  - intros F' R' Hin. apply Hst. right. exact Hin.
  - destruct (Hst F R (or_introl eq_refl)) as [HF HR].
    apply argv_step_same_flags; assumption.
Qed.

(** A position is left alone by the passes of flags that do not occur
    first right before it. *)
Lemma passes_lookup_other (steps : list (string * string))
    (a : list (option string)) (k : nat) :
  (forall F R, In (F, R) steps -> In F flags /\ ~ In R flags) ->
  same_flags a ->
  (forall F R n, In (F, R) steps ->
     findIndex (is_flag F) a0 = Z.of_nat n -> k <> S n) ->
  passes steps a !! k = a !! k.
Proof.
  revert a. induction steps as [|[F R] steps IH]; intros a Hst Hs Hk; [reflexivity|].
  cbn [passes foldl fst snd].
  destruct (Hst F R (or_introl eq_refl)) as [HF HR].
  change (passes steps (argv_step [] R a F) !! k = a !! k).
  rewrite IH.
  - destruct (findIndex_cases (is_flag F) a0) as [E|[n E]].
    + rewrite argv_step_absent by assumption. reflexivity.
    + rewrite (argv_step_at a F R n HF Hs E).
      destruct (decide (k = S n)) as [->|]; [|reflexivity].
      exfalso. exact (Hk F R n (or_introl eq_refl) E eq_refl).
  - intros F' R' Hin. apply Hst. right. exact Hin.
  - apply argv_step_same_flags; assumption.
  - intros F' R' n Hin. apply (Hk F' R' n). right. exact Hin.
Qed.

(** After the passes, the element that follows the first occurrence of a
    flag is the placeholder the flag was passed with. *)
Lemma passes_scrub (steps : list (string * string)) (a : list (option string))
    (F R : string) (n : nat) :
  (forall F R, In (F, R) steps -> In F flags /\ ~ In R flags) ->
  NoDup (map fst steps) ->
  same_flags a ->
  In (F, R) steps ->
  findIndex (is_flag F) a0 = Z.of_nat n ->
  passes steps a !! S n = Some (Some R).
Proof.
  revert a. induction steps as [|[G Q] steps IH]; intros a Hst Hnd Hs Hin Hn;
    [destruct Hin|].
  cbn [passes foldl fst snd].
  change (passes steps (argv_step [] Q a G) !! S n = Some (Some R)).
  destruct (Hst G Q (or_introl eq_refl)) as [HG HQ].
  cbn [map fst] in Hnd. apply NoDup_cons in Hnd as [Hnot Hnd].
  assert (Hst' : forall F R, In (F, R) steps -> In F flags /\ ~ In R flags)
    by (intros F' R' H'; apply Hst; right; exact H').
  assert (Hs' : same_flags (argv_step [] Q a G))
    by (apply argv_step_same_flags; assumption).
  destruct Hin as [Heq|Hin].
  - injection Heq as -> ->.
    rewrite passes_lookup_other; [| exact Hst' | exact Hs' |].
    + rewrite (argv_step_at a F R n HG Hs Hn). rewrite decide_True by reflexivity.
      reflexivity.
    + intros F' R' m Hin' Hm Heq. injection Heq as ->.
      apply Hnot. apply list_elem_of_In.
      assert (F' = F).
      { apply findIndex_some in Hn as [(v & Hv & Hp) _].
        apply findIndex_some in Hm as [(w & Hw & Hq) _].
        apply is_flag_true in Hp, Hq. congruence. }
      subst F'. apply (in_map fst) in Hin'. exact Hin'.
  - apply IH; assumption.
Qed.

End WellFormedCommandLine.

(** On a command line where [execArgv] holds none of the six flags and no
    flag of [argv] is directly followed by another flag, [cleanEnv]
    replaces the element after the first occurrence of each flag by the
    placeholder of its entry, and leaves every other element of [argv] as
    it is. *)
Theorem cleanEnv_argv_scrubbed (p : Process) :
  (forall k F, In F flags -> execArgv p !! k <> Some (Some F)) ->
  (forall k F G, In F flags -> In G flags ->
     argv p !! k = Some (Some F) -> argv p !! S k <> Some (Some G)) ->
  (forall entry F n,
     In entry confidentialData -> In F (entry_cli entry) ->
     findIndex (is_flag F) (argv p) = Z.of_nat n ->
     argv (cleanEnv p) !! S n = Some (Some (entry_replacement entry))) /\
  (forall k,
     (forall F n, In F flags ->
        findIndex (is_flag F) (argv p) = Z.of_nat n -> k <> S n) ->
     argv (cleanEnv p) !! k = argv p !! k).
Proof.
  intros Hx Hfv.
  set (steps := [ ("-u", "<APPLE ID USERNAME>"); ("--username", "<APPLE ID USERNAME>");
                  ("-p", "<APPLE ID PASSWORD>"); ("--password", "<APPLE ID PASSWORD>");
                  ("-T", "<TRUST TOKEN>"); ("--trust-token", "<TRUST TOKEN>") ]).
  assert (Hst : forall F R, In (F, R) steps -> In F flags /\ ~ In R flags).
  { intros F R Hin. subst steps. cbn [In] in Hin.
    destruct Hin as [H|[H|[H|[H|[H|[H|[]]]]]]]; injection H as <- <-;
      (split; [cbv [flags In]; auto 10|]); cbv [flags In];
      intros [E|[E|[E|[E|[E|[E|[]]]]]]]; discriminate E. }
  assert (Hargv : argv (cleanEnv p) = passes steps (argv p)).
  { rewrite cleanEnv_argv. unfold passes, steps.
    assert (Hnone : forall F, In F flags ->
              findIndex (is_flag F) (execArgv p) = (-1)%Z).
    { intros F HF. apply findIndex_none. intros k v Hv.
      destruct (is_flag F v) eqn:E; [|reflexivity].
      apply is_flag_true in E. subst v. exfalso. exact (Hx k F HF Hv). }
    cbn [foldl fst snd].
    rewrite !(argv_step_no_flag (execArgv p)) by (apply Hnone; cbv [flags In]; auto 10).
    reflexivity. }
  assert (Hsame : same_flags (argv p) (argv p)) by (intros k F _; reflexivity).
  rewrite Hargv. split.
  - intros entry F n He HF Hn.
    apply (passes_scrub (argv p) Hfv steps (argv p) F (entry_replacement entry) n);
      try assumption.
    + refine (@bool_decide_unpack _ (NoDup_dec _) _). vm_compute. exact I.
    + cbv [confidentialData In] in He.
      destruct He as [<-|[<-|[<-|[]]]]; cbv [entry_cli In] in HF;
        destruct HF as [<-|[<-|[]]]; cbv [steps In]; auto 10.
  - intros k Hk.
    apply (passes_lookup_other (argv p) Hfv steps (argv p) k); try assumption.
    intros F R n Hin. apply Hk. apply (Hst F R Hin).
Qed.

Lemma cleanEnv_argv_scrubbed_witness :
  argv (cleanEnv (mkProcess ∅
          [Some "node"; Some "main.js"; Some "-u"; Some "me@icloud.com";
           Some "--password"; Some "hunter2"] []))
    !! 5%nat = Some (Some "<APPLE ID PASSWORD>").
Proof.
  set (p := mkProcess ∅
              [Some "node"; Some "main.js"; Some "-u"; Some "me@icloud.com";
               Some "--password"; Some "hunter2"] []).
  assert (Hx : forall k F, In F flags -> execArgv p !! k <> Some (Some F)).
  { intros k F _. destruct k; discriminate. }
  assert (Hfv : forall k F G, In F flags -> In G flags ->
            argv p !! k = Some (Some F) -> argv p !! S k <> Some (Some G)).
  { intros k F G HF HG.
    do 6 (destruct k as [|k];
          [cbv [flags In] in HF, HG; cbn; intros H1 H2;
           try discriminate H2;
           injection H1 as <-; injection H2 as <-;
           first [ solve [repeat (destruct HF as [HF|HF]; [discriminate HF|]);
                          destruct HF]
                 | solve [repeat (destruct HG as [HG|HG]; [discriminate HG|]);
                          destruct HG] ]|]).
    cbn. discriminate. }
  apply (proj1 (cleanEnv_argv_scrubbed p Hx Hfv)
           (mkConfidentialEntry "APPLE_ID_PWD" ["-p"; "--password"]
                                "<APPLE ID PASSWORD>")
           "--password" 4%nat).
  - right. left. reflexivity.
  - right. left. reflexivity.
  - vm_compute. reflexivity.
Defined.

(** *** What [cleanEnv] does to [process.env] *)

Import ErrorHandlerProps.

(** A variable that is unset, empty or already at the placeholder is left
    alone. *)
Lemma scrub_settled (entry : ConfidentialEntry) (m : gmap string string) :
  entry_replacement entry <> "" ->
  m !! entry_env entry = None \/ m !! entry_env entry = Some "" \/
  m !! entry_env entry = Some (entry_replacement entry) ->
  scrub entry m = m.
Proof.
  intros Hne [H|[H|H]]; unfold scrub; rewrite H; try reflexivity.
  apply String.eqb_neq in Hne. rewrite Hne. cbn [negb].
  apply insert_id. exact H.
Qed.

Lemma scrub_settles (entry : ConfidentialEntry) (m : gmap string string) :
  scrub entry m !! entry_env entry = None \/
  scrub entry m !! entry_env entry = Some "" \/
  scrub entry m !! entry_env entry = Some (entry_replacement entry).
Proof.
  unfold scrub. destruct (m !! entry_env entry) as [v|] eqn:H.
  - destruct (String.eqb v "") eqn:E; cbn [negb].
    + apply String.eqb_eq in E. subst v. right. left. exact H.
    + right. right. apply lookup_insert_eq.
  - left. exact H.
Qed.

(** [cleanEnv] changes no environment variable other than the three
    confidential ones, and a second run leaves the environment as the
    first run made it. *)
Theorem cleanEnv_env_idempotent (p : Process) :
  env (cleanEnv (cleanEnv p)) = env (cleanEnv p) /\
  (forall name : string,
     name <> "APPLE_ID_USER" -> name <> "APPLE_ID_PWD" -> name <> "TRUST_TOKEN" ->
     env (cleanEnv p) !! name = env p !! name).
Proof.
  rewrite !cleanEnv_env. unfold confidentialData. cbn [foldl].
  set (u := mkConfidentialEntry "APPLE_ID_USER" _ _).
  set (w := mkConfidentialEntry "APPLE_ID_PWD" _ _).
  set (t := mkConfidentialEntry "TRUST_TOKEN" _ _).
  set (m := env p). clearbody m. split.
  - assert (Hu : scrub u (scrub t (scrub w (scrub u m))) = scrub t (scrub w (scrub u m))).
    { apply scrub_settled; [discriminate|].
      rewrite !(scrub_lookup_ne _ _ (entry_env u)) by discriminate.
      apply scrub_settles. }
    rewrite Hu.
    assert (Hw : scrub w (scrub t (scrub w (scrub u m))) = scrub t (scrub w (scrub u m))).
    { apply scrub_settled; [discriminate|].
      rewrite !(scrub_lookup_ne t _ (entry_env w)) by discriminate.
      apply scrub_settles. }
    rewrite Hw.
    apply scrub_settled; [discriminate|]. apply scrub_settles.
  - intros name Hu Hw Ht.
    rewrite !scrub_lookup_ne by (subst u w t; cbn; congruence).
    reflexivity.
Qed.

Lemma cleanEnv_env_idempotent_witness :
  env (cleanEnv (mkProcess {[ "HOME" := "/root" ]} [] [])) !! "HOME" =
    Some "/root".
Proof.
  rewrite (proj2 (cleanEnv_env_idempotent (mkProcess {[ "HOME" := "/root" ]} [] []))
             "HOME") by discriminate.
  reflexivity.
Defined.

End ErrorHandlerMore.

(** ** [icloud.ts]: the rest of the flow

    [getReady], [getTokens], [getiCloudCookies], [getiCloudPhotosReady] and
    the listeners the constructor registers for [TRUSTED], [AUTHENTICATED]
    and [ACCOUNT_READY]. *)

Module ICloudFlow.
Import ErrorTypes Eff ICloud.
Local Open Scope eff_scope.

(** The promise [this.ready]. *)
Inductive Ready : Type :=
  | Pending
  | Resolved
  | Rejected (err : Value).

(** [getReady()]: the promise the constructor stores in [this.ready]
    resolves at the first [READY] and rejects, with its argument, at the
    first [ERROR] ([once] on either event); a settled promise stays as it
    is.  [evs] are the events emitted since the construction. *)
Fixpoint getReady (evs : list Event) : Ready :=
  match evs with
  | [] => Pending
  | READY :: _ => Resolved
  | ERROR err :: _ => Rejected err
  | _ :: evs' => getReady evs'
  end.

Section Flow.

(** The state of [this.auth] ([auth.ts], not among the sources) beyond the
    auth secrets: account tokens, cookies, photos domain. *)
Variable A : Type.

(** The methods of [this.auth] and of [this.photos] ([auth.ts] and
    [icloud-photos/icloud-photos.ts], not among the sources) that the
    three methods call.  A validation throws or not; the processing of a
    response throws or changes the state of [this.auth];
    [this.photos.setup()] emits warnings on [HANDLER_EVENT], which the
    object forwards, and resolves or rejects. *)
Record Collaborators : Type := mkCollaborators {
  validateAuthSecrets : A -> option JSError;
  processAccountTokens : Response -> A -> JSError + A;
  validateAccountTokens : A -> option JSError;
  processCloudSetupResponse : Response -> A -> JSError + A;
  validateCloudCookies : A -> option JSError;
  photos_setup : A -> list Value * option JSError;
}.

(** The object with the fields the three methods add to the picture:
    [this.auth] and whether [this.photos] is set. *)
Record Session : Type := mkSession {
  this : iCloud;
  auth : A;
  photos : bool;
}.

Definition set_this (i : iCloud) (s : Session) : Session :=
  mkSession i (auth s) (photos s).
Definition set_auth (a : A) (s : Session) : Session :=
  mkSession (this s) a (photos s).
Definition set_photos (b : bool) (s : Session) : Session :=
  mkSession (this s) (auth s) b.

(** A method of [icloud.ts] modelled on [iCloud], run on the session. *)
Definition lift {B} (m : M iCloud B) : M Session B :=
  fun s => match m (this s) with (o, i) => (o, set_this i s) end.

(** [this.auth.validate...()] *)
Definition auth_validate (f : A -> option JSError) : M Session unit :=
  s <- get ;;
  match f (auth s) with
  | Some e => throw e
  | None => ret tt
  end.

(** [this.auth.process...(response)] *)
Definition auth_process (f : A -> JSError + A) : M Session unit :=
  s <- get ;;
  match f (auth s) with
  | inl e => throw e
  | inr a => modify (set_auth a)
  end.

(** An [async] listener: what it throws rejects its own promise and does
    not reach the emitter. *)
Definition async (m : M Session unit) : M Session unit :=
  try_catch m (fun _ => ret tt).

Variable c : Collaborators.

(** [await this.photos.setup()] with the warnings it emits forwarded by
    [this.photos.on(HANDLER_EVENT, this.emit.bind(this, HANDLER_EVENT))]. *)
Definition photos_run_setup : M Session unit :=
  s <- get ;;
  match photos_setup c (auth s) with
  | (warnings, outcome) =>
      foldr (fun w k => lift (emit (HANDLER_EVENT w)) ;; k) (ret tt) warnings ;;
      match outcome with
      | Some e => throw e
      | None => ret tt
      end
  end.

(** [async getiCloudPhotosReady()] *)
Definition getiCloudPhotosReady : M Session unit :=
  try_catch
    (auth_validate (validateCloudCookies c) ;;
     s <- get ;;
     (if negb (photos s) then
        throw (ICPS (iCloudError "Unable to setup iCloud Photos, object does not exist"))
      else ret tt) ;;
     photos_run_setup ;;
     lift (emit READY))
    (fun err =>
       lift (emit (ERROR (VError (ICPS
         (addCause (iCloudError "Unable to get iCloud Photos service ready") err)))))).

(** [this.emit(ICLOUD.EVENTS.ACCOUNT_READY)] with its listener. *)
Definition emit_ACCOUNT_READY : M Session unit :=
  lift (emit ACCOUNT_READY) ;;
  async getiCloudPhotosReady.

(** [async getiCloudCookies()]; [setup] is what the network does with the
    setup request. *)
Definition getiCloudCookies (setup : NetOutcome) : M Session unit :=
  try_catch
    (auth_validate (validateAccountTokens c) ;;
     response <- lift (axios_request setup) ;;
     auth_process (processCloudSetupResponse c response) ;;
     modify (set_photos true) ;;
     emit_ACCOUNT_READY)
    (fun err =>
       lift (emit (ERROR (VError (ICPS
         (addCause (iCloudError "Received error during iCloud Setup") err)))))).

(** [this.emit(ICLOUD.EVENTS.TRUSTED)] with its listener. *)
Definition emit_TRUSTED (setup : NetOutcome) : M Session unit :=
  lift (emit TRUSTED) ;;
  async (getiCloudCookies setup).

(** [async getTokens()]; [trust] is what the network does with the trust
    request. *)
Definition getTokens (trust setup : NetOutcome) : M Session unit :=
  try_catch
    (auth_validate (validateAuthSecrets c) ;;
     response <- lift (axios_request trust) ;;
     auth_process (processAccountTokens c response) ;;
     emit_TRUSTED setup)
    (fun err =>
       lift (emit (ERROR (VError (ICPS
         (addCause (iCloudError "Received error while acquiring trust tokens") err)))))).

(** The listeners of the constructor, by event. *)
Definition listener (trust setup : NetOutcome) (ev : Event) : M Session unit :=
  match ev with
  | TRUSTED => async (getiCloudCookies setup)
  | AUTHENTICATED => async (getTokens trust setup)
  | ACCOUNT_READY => async getiCloudPhotosReady
  | _ => ret tt
  end.

(** A method modelled on [iCloud] together with the listeners of the
    events it emits.  [authenticate] and [submitMFA] emit [TRUSTED] and
    [AUTHENTICATED] as their last action, so that running the listener
    after the method is running it at the emission. *)
Definition with_listeners (trust setup : NetOutcome) (m : M iCloud unit)
    : M Session unit :=
  s0 <- get ;;
  lift m ;;
  s1 <- get ;;
  foldr (fun ev k => listener trust setup ev ;; k) (ret tt)
        (drop (length (emitted (this s0))) (emitted (this s1))).

(** [authenticate()] and all that follows from it without further input:
    the signin request and, after [TRUSTED], the setup request and the
    setup of the photos service. *)
Definition authenticate_flow (a : iCloudAuth) (signin trust setup : NetOutcome)
    : M Session unit :=
  with_listeners trust setup (authenticate a signin).

(** [submitMFA(method, mfa)] and all that follows from it: the request that
    enters the code and, after [AUTHENTICATED], the trust request, the
    setup request and the setup of the photos service. *)
Definition submitMFA_flow (method : MFAMethod) (mfa : string)
    (enter trust setup : NetOutcome) : M Session unit :=
  with_listeners trust setup (submitMFA method mfa enter).

End Flow.

Arguments mkCollaborators {A} _ _ _ _ _ _.
Arguments validateAuthSecrets {A} _ _.
Arguments processAccountTokens {A} _ _ _.
Arguments validateAccountTokens {A} _ _.
Arguments processCloudSetupResponse {A} _ _ _.
Arguments validateCloudCookies {A} _ _.
Arguments photos_setup {A} _ _.
Arguments mkSession {A} _ _ _.
Arguments this {A} _.
Arguments auth {A} _.
Arguments photos {A} _.
Arguments set_this {A} _ _.
Arguments set_auth {A} _ _.
Arguments set_photos {A} _ _.
Arguments lift {A B} _ _.
Arguments auth_validate {A} _ _.
Arguments auth_process {A} _ _.
Arguments async {A} _ _.
Arguments photos_run_setup {A} _ _.
Arguments getiCloudPhotosReady {A} _ _.
Arguments emit_ACCOUNT_READY {A} _ _.
Arguments getiCloudCookies {A} _ _ _.
Arguments emit_TRUSTED {A} _ _ _.
Arguments getTokens {A} _ _ _ _.
Arguments listener {A} _ _ _ _ _.
Arguments with_listeners {A} _ _ _ _ _.
Arguments authenticate_flow {A} _ _ _ _ _ _.
Arguments submitMFA_flow {A} _ _ _ _ _ _ _.

End ICloudFlow.

(** ** The order of the events of the flow *)

Module ICloudFlowProps.
Import ErrorTypes Eff ICloud ICloudFlow.

(** *** The promise [ready] *)

Definition settles (ev : Event) : bool :=
  match ev with
  | READY | ERROR _ => true
  | _ => false
  end.

(** A settled [ready] promise is not changed by later events; a pending
    one settles as the later events make it; and it is pending exactly as
    long as neither [READY] nor [ERROR] was emitted. *)
Theorem getReady_latch (evs more : list Event) :
  (getReady evs <> Pending -> getReady (evs ++ more) = getReady evs) /\
  (getReady evs = Pending -> getReady (evs ++ more) = getReady more) /\
  (getReady evs = Pending <-> forall ev, In ev evs -> settles ev = false).
Proof.
  induction evs as [|ev evs (IH1 & IH2 & IH3)].
  - split; [intros H; exfalso; apply H; reflexivity|]. split; [reflexivity|].
    split; [intros _ ev []|reflexivity].
  - destruct ev; cbn [getReady app];
      try (split; [exact IH1|]; split; [exact IH2|];
           rewrite IH3; split;
           [ intros H ev [<-|Hin]; [reflexivity|exact (H ev Hin)]
           | intros H ev Hin; apply H; right; exact Hin ]).
    + split; [reflexivity|]. split; [discriminate|].
      split; [discriminate|]. intros H.
      specialize (H READY (or_introl eq_refl)). discriminate.
    + split; [reflexivity|]. split; [discriminate|].
      split; [discriminate|]. intros H.
      specialize (H (ERROR err) (or_introl eq_refl)). discriminate.
Qed.

Lemma getReady_latch_witness :
  getReady ([AUTHENTICATION_STARTED; ERROR VNull] ++ [READY]) =
    getReady [AUTHENTICATION_STARTED; ERROR VNull].
Proof.
  apply (proj1 (getReady_latch [AUTHENTICATION_STARTED; ERROR VNull] [READY])).
  discriminate.
Defined.

(** *** The shapes of the event sequences *)

(** The event is an [ERROR] that carries a FATAL [iCloudError] with the
    given message. *)
Definition fatal_iCloudError (msg : string) (ev : Event) : Prop :=
  exists e : iCPSError,
    ev = ERROR (VError (ICPS e)) /\
    cls e = Class_iCloudError /\ sev e = FATAL /\ message e = msg.

Inductive photos_shape : list Event -> Prop :=
  | photos_ready (ws : list Value) :
      photos_shape (map HANDLER_EVENT ws ++ [READY])
  | photos_failed (ws : list Value) (ev : Event) :
      fatal_iCloudError "Unable to get iCloud Photos service ready" ev ->
      photos_shape (map HANDLER_EVENT ws ++ [ev]).

Inductive cookies_shape : list Event -> Prop :=
  | cookies_failed (ev : Event) :
      fatal_iCloudError "Received error during iCloud Setup" ev ->
      cookies_shape [ev]
  | cookies_ready (l : list Event) :
      photos_shape l -> cookies_shape (ACCOUNT_READY :: l).

Inductive tokens_shape : list Event -> Prop :=
  | tokens_failed (ev : Event) :
      fatal_iCloudError "Received error while acquiring trust tokens" ev ->
      tokens_shape [ev]
  | tokens_trusted (l : list Event) :
      cookies_shape l -> tokens_shape (TRUSTED :: l).

Inductive submit_shape : list Event -> Prop :=
  | submit_failed (ev : Event) :
      fatal_iCloudError "Received error during MFA validation" ev ->
      submit_shape [ev]
  | submit_authenticated (l : list Event) :
      tokens_shape l -> submit_shape (AUTHENTICATED :: l).

Inductive authenticate_shape (port : Z) (failOnMfa : bool) : list Event -> Prop :=
  | authenticate_trusted (l : list Event) :
      cookies_shape l ->
      authenticate_shape port failOnMfa (AUTHENTICATION_STARTED :: TRUSTED :: l)
  | authenticate_mfa :
      failOnMfa = false ->
      authenticate_shape port failOnMfa [AUTHENTICATION_STARTED; MFA_REQUIRED port]
  | authenticate_mfa_refused (ev : Event) :
      failOnMfa = true ->
      fatal_iCloudError "MFA code required, failing due to failOnMfa flag" ev ->
      authenticate_shape port failOnMfa [AUTHENTICATION_STARTED; MFA_REQUIRED port; ev]
  | authenticate_failed (err : Value) :
      authenticate_shape port failOnMfa [AUTHENTICATION_STARTED; ERROR err]
  | authenticate_failed_twice (err1 err2 : Value) :
      authenticate_shape port failOnMfa
        [AUTHENTICATION_STARTED; ERROR err1; ERROR err2].

(** The object with further events emitted. *)
Definition push (l : list Event) (i : iCloud) : iCloud :=
  mkiCloud (failOnMfa i) (iCloudAuthSecrets i) (mfaServer_port i)
           (mfaServer_running i) (emitted i ++ l).

Lemma push_push (l1 l2 : list Event) (i : iCloud) :
  push l2 (push l1 i) = push (l1 ++ l2) i.
Proof. unfold push. cbn. rewrite app_assoc. reflexivity. Qed.

Lemma record_event_push (ev : Event) (i : iCloud) :
  record_event ev i = push [ev] i.
Proof. reflexivity. Qed.

Lemma fatal_iCloudError_intro (msg : string) (err : JSError) :
  fatal_iCloudError msg (ERROR (VError (ICPS (addCause (iCloudError msg) err)))).
Proof. eexists. repeat split. Qed.

Section Flow.

Variable A : Type.
Variable c : Collaborators A.

Lemma async_returns (m : M (Session A) unit) (s : Session A) :
  fst (m s) = Returned tt -> async m s = m s.
Proof.
  unfold async, try_catch. destruct (m s) as [[[]|e] s']; cbn; congruence.
Qed.

Lemma forwarded_warnings (ws : list Value) (s : Session A) :
  foldr (fun w k => bind (lift (emit (HANDLER_EVENT w))) (fun _ => k)) (ret tt) ws s =
    (Returned tt, set_this (push (map HANDLER_EVENT ws) (this s)) s).
Proof.
  revert s. induction ws as [|w ws IH]; intros [i a ph].
  - cbn. unfold push. rewrite app_nil_r. destruct i. reflexivity.
  - cbn [foldr map]. unfold bind at 1. cbn [lift emit].
    change (lift (emit (HANDLER_EVENT w)) (mkSession i a ph))
      with (Returned tt, mkSession (push [HANDLER_EVENT w] i) a ph).
    cbv beta iota. rewrite IH. cbn [this set_this auth photos].
    rewrite push_push. reflexivity.
Qed.

Lemma photos_run_setup_runs (s : Session A) :
  photos_run_setup c s =
    (match snd (photos_setup c (auth s)) with
     | Some e => Thrown e
     | None => Returned tt
     end,
     set_this (push (map HANDLER_EVENT (fst (photos_setup c (auth s)))) (this s)) s).
Proof.
  unfold photos_run_setup. unfold bind at 1, get at 1.
  destruct (photos_setup c (auth s)) as [ws o]. cbn [fst snd].
  unfold bind. rewrite forwarded_warnings. destruct o; reflexivity.
Qed.

(** Unfolds the plumbing of the methods of the flow. *)
Ltac run_flow :=
  cbv [getiCloudPhotosReady getiCloudCookies getTokens emit_ACCOUNT_READY
       emit_TRUSTED auth_validate auth_process try_catch bind get throw ret
       modify lift emit set_this set_auth set_photos this auth photos].

(** [getiCloudPhotosReady] never throws.  It forwards the warnings of the
    setup of the photos service and then emits either [READY] or one
    fatal [iCloudError]; it changes nothing else.  Without a photos
    object it does not emit [READY]. *)
Theorem getiCloudPhotosReady_shape (s : Session A) :
  exists l : list Event,
    getiCloudPhotosReady c s = (Returned tt, set_this (push l (this s)) s) /\
    photos_shape l /\
    (photos s = false -> ~ In READY l).
Proof.
  destruct s as [i a ph].
  unfold getiCloudPhotosReady, try_catch. unfold bind at 1. unfold auth_validate.
  unfold bind at 1, get at 1. cbn [auth].
  destruct (validateCloudCookies c a) as [e|] eqn:Hv.
  - exists [ERROR (VError (ICPS (addCause
              (iCloudError "Unable to get iCloud Photos service ready") e)))].
    split; [reflexivity|]. split.
    + apply (photos_failed []). apply fatal_iCloudError_intro.
    + intros _ [H|[]]. discriminate H.
  - cbv [ret]. unfold bind at 1, get at 1. cbn [photos].
    destruct ph; cbn [negb].
    + unfold bind at 1. cbv [ret]. unfold bind at 1.
      rewrite photos_run_setup_runs. cbn [auth this set_this].
      destruct (photos_setup c a) as [ws [e|]]; cbn [fst snd].
      * exists (map HANDLER_EVENT ws ++
                [ERROR (VError (ICPS (addCause
                   (iCloudError "Unable to get iCloud Photos service ready") e)))]).
        split; [cbn; rewrite record_event_push, push_push; reflexivity|].
        split; [|discriminate].
        apply photos_failed. apply fatal_iCloudError_intro.
      * exists (map HANDLER_EVENT ws ++ [READY]).
        split; [cbn; rewrite record_event_push, push_push; reflexivity|].
        split; [apply photos_ready|discriminate].
    + eexists. split; [reflexivity|]. split.
      * apply (photos_failed []). apply fatal_iCloudError_intro.
      * intros _ [H|[]]. discriminate H.
Qed.

(** What [await this.axios...] yields; the object is not changed. *)
Definition axios_result (net : NetOutcome) : Outcome Response :=
  match net with
  | NoResponse m => Thrown (AxiosError m None)
  | Responded r =>
      if (200 <=? status r)%Z && (status r <? 300)%Z then Returned r
      else Thrown (ICloudProps.rejection r)
  end.

Lemma axios_request_result (net : NetOutcome) (i : iCloud) :
  axios_request net i = (axios_result net, i).
Proof.
  destruct net as [m|r]; cbn; [reflexivity|].
  destruct ((200 <=? status r)%Z && (status r <? 300)%Z); reflexivity.
Qed.

(** [getiCloudCookies], with the listener of [ACCOUNT_READY], never
    throws.  It emits either one fatal [iCloudError] or [ACCOUNT_READY]
    followed by the events of [getiCloudPhotosReady]; [this.photos] is set
    exactly when [ACCOUNT_READY] is emitted (or was set before). *)
Theorem getiCloudCookies_shape (setup : NetOutcome) (s : Session A) :
  exists l : list Event,
    fst (getiCloudCookies c setup s) = Returned tt /\
    this (snd (getiCloudCookies c setup s)) = push l (this s) /\
    cookies_shape l /\
    (photos (snd (getiCloudCookies c setup s)) = true <->
       photos s = true \/ In ACCOUNT_READY l).
Proof.
  destruct s as [i a ph].
  cbv [getiCloudCookies emit_ACCOUNT_READY async auth_validate auth_process
       try_catch bind get throw ret modify lift emit set_this set_auth
       set_photos this auth photos].
  destruct (validateAccountTokens c a) as [e|] eqn:Hv.
  - eexists. split; [reflexivity|]. split; [reflexivity|].
    split; [apply cookies_failed, fatal_iCloudError_intro|].
    cbn. split; [auto|]. intros [H|[H|[]]]; [exact H|discriminate H].
  - rewrite axios_request_result. destruct (axios_result setup) as [r|err].
    + destruct (processCloudSetupResponse c r a) as [e|a'].
      * eexists. split; [reflexivity|]. split; [reflexivity|].
        split; [apply cookies_failed, fatal_iCloudError_intro|].
        cbn. split; [auto|]. intros [H|[H|[]]]; [exact H|discriminate H].
      * match goal with
        | |- context [getiCloudPhotosReady c ?s2] =>
            destruct (getiCloudPhotosReady_shape s2) as (l & Heq & Hsh & _);
            rewrite Heq
        end.
        exists (ACCOUNT_READY :: l). cbn.
        split; [reflexivity|].
        split; [rewrite record_event_push, push_push; reflexivity|].
        split; [apply cookies_ready; exact Hsh|].
        split; auto.
    + eexists. split; [reflexivity|]. split; [reflexivity|].
      split; [apply cookies_failed, fatal_iCloudError_intro|].
      cbn. split; [auto|]. intros [H|[H|[]]]; [exact H|discriminate H].
Qed.

(** [getTokens], with the listener of [TRUSTED], never throws.  It emits
    either one fatal [iCloudError] or [TRUSTED] followed by the events of
    [getiCloudCookies]. *)
Theorem getTokens_shape (trust setup : NetOutcome) (s : Session A) :
  exists l : list Event,
    fst (getTokens c trust setup s) = Returned tt /\
    this (snd (getTokens c trust setup s)) = push l (this s) /\
    tokens_shape l.
Proof.
  destruct s as [i a ph].
  cbv [getTokens emit_TRUSTED async auth_validate auth_process
       try_catch bind get throw ret modify lift emit set_this set_auth
       set_photos this auth photos].
  destruct (validateAuthSecrets c a) as [e|] eqn:Hv.
  - eexists. split; [reflexivity|]. split; [reflexivity|].
    apply tokens_failed, fatal_iCloudError_intro.
  - rewrite axios_request_result. destruct (axios_result trust) as [r|err].
    + destruct (processAccountTokens c r a) as [e|a'].
      * eexists. split; [reflexivity|]. split; [reflexivity|].
        apply tokens_failed, fatal_iCloudError_intro.
      * match goal with
        | |- context [getiCloudCookies c setup ?s2] =>
            destruct (getiCloudCookies_shape setup s2) as (l & Hret & Hthis & Hsh & _);
            destruct (getiCloudCookies c setup s2) as [o s3]
        end.
        destruct s3 as [i3 a3 ph3]. cbn [fst snd this] in Hret, Hthis. subst o i3.
        exists (TRUSTED :: l). cbn.
        split; [reflexivity|].
        split; [rewrite record_event_push, push_push; reflexivity|].
        apply tokens_trusted. exact Hsh.
    + eexists. split; [reflexivity|]. split; [reflexivity|].
      apply tokens_failed, fatal_iCloudError_intro.
Qed.

(** *** [authenticate] and [submitMFA] with their listeners *)

(** What [authenticate] itself emits after [AUTHENTICATION_STARTED], with
    the state of the MFA server afterwards. *)
Inductive authenticate_core (port : Z) (fail running : bool)
    : list Event -> bool -> Prop :=
  | core_trusted :
      authenticate_core port fail running [TRUSTED] running
  | core_mfa :
      fail = false ->
      authenticate_core port fail running [MFA_REQUIRED port] true
  | core_mfa_refused (ev : Event) :
      fail = true ->
      fatal_iCloudError "MFA code required, failing due to failOnMfa flag" ev ->
      authenticate_core port fail running [MFA_REQUIRED port; ev] running
  | core_failed (err : Value) :
      authenticate_core port fail running [ERROR err] running
  | core_failed_twice (err1 err2 : Value) :
      authenticate_core port fail running [ERROR err1; ERROR err2] running.

Lemma authenticate_core_shape (a : iCloudAuth) (net : NetOutcome) (i : iCloud) :
  validateAccountSecrets a = None ->
  exists (l : list Event) (i' : iCloud),
    authenticate a net i = (Returned tt, i') /\
    emitted i' = emitted i ++ AUTHENTICATION_STARTED :: l /\
    failOnMfa i' = failOnMfa i /\
    mfaServer_port i' = mfaServer_port i /\
    authenticate_core (mfaServer_port i) (failOnMfa i) (mfaServer_running i)
                      l (mfaServer_running i').
Proof.
  intros Hv. destruct a as [v p]. cbn in Hv. subst v.
  destruct i as [f sec port run evs].
  cbv [authenticate bind try_catch try_finally_return when emit modify get ret
       throw auth_validateAccountSecrets auth_processAuthSecrets
       on_MFA_REQUIRED startServer response_of axios_request
       validateAccountSecrets processAuthSecrets record_event
       set_iCloudAuthSecrets set_mfaServer_running
       failOnMfa iCloudAuthSecrets mfaServer_port mfaServer_running emitted].
  destruct net as [m|r].
  - eexists _, _. split; [reflexivity|]. cbn [emitted failOnMfa mfaServer_port
      mfaServer_running]. split; [rewrite <- app_assoc; reflexivity|].
    split; [reflexivity|]. split; [reflexivity|]. apply core_failed.
  - destruct ((200 <=? status r)%Z && (status r <? 300)%Z) eqn:H2xx;
      destruct (status r =? 200)%Z eqn:H200;
      destruct (status r =? 401)%Z eqn:H401;
      destruct (status r =? 403)%Z eqn:H403;
      destruct (status r =? 409)%Z eqn:H409;
      try (apply andb_true_iff in H2xx as [Hlo Hhi];
           apply Z.leb_le in Hlo; apply Z.ltb_lt in Hhi);
      repeat match goal with
             | H : (_ =? _)%Z = true |- _ => apply Z.eqb_eq in H
             | H : (_ =? _)%Z = false |- _ => apply Z.eqb_neq in H
             end;
      try (exfalso; lia);
      try (exfalso; rewrite H200 in H2xx; discriminate H2xx);
      cbv [negb]; cbv beta iota;
      destruct (p r) as [e|secrets]; destruct f;
      cbv beta iota;
      (eexists _, _; split; [reflexivity|];
       cbn [emitted failOnMfa mfaServer_port mfaServer_running];
       split; [rewrite <- ?app_assoc; cbn [app]; reflexivity|];
       split; [reflexivity|]; split; [reflexivity|];
       first [ apply core_trusted
             | apply core_mfa; reflexivity
             | apply core_mfa_refused; [reflexivity|eexists; repeat split]
             | apply core_failed
             | apply core_failed_twice ]).
Qed.

Lemma with_listeners_run (trust setup : NetOutcome) (m : M iCloud unit)
    (s : Session A) (i' : iCloud) (l : list Event) :
  m (this s) = (Returned tt, i') ->
  emitted i' = emitted (this s) ++ l ->
  with_listeners c trust setup m s =
    foldr (fun ev k => bind (listener c trust setup ev) (fun _ => k)) (ret tt) l
          (set_this i' s).
Proof.
  intros Hm Hl. unfold with_listeners. unfold bind at 1, get at 1.
  unfold bind at 1. unfold lift at 1. rewrite Hm.
  unfold bind at 1, get at 1. cbn [this set_this].
  rewrite Hl, drop_app_length. reflexivity.
Qed.

Lemma authenticate_flow_events (a : iCloudAuth) (signin trust setup : NetOutcome)
    (s : Session A) :
  validateAccountSecrets a = None ->
  exists l : list Event,
    fst (authenticate_flow c a signin trust setup s) = Returned tt /\
    emitted (this (snd (authenticate_flow c a signin trust setup s))) =
      emitted (this s) ++ l /\
    authenticate_shape (mfaServer_port (this s)) (failOnMfa (this s)) l /\
    (mfaServer_running (this (snd (authenticate_flow c a signin trust setup s))) = true <->
       mfaServer_running (this s) = true \/
       l = [AUTHENTICATION_STARTED; MFA_REQUIRED (mfaServer_port (this s))]).
Proof.
  intros Hv.
  destruct (authenticate_core_shape a signin (this s) Hv)
    as (l & i' & Hrun & Hem & Hf & Hp & Hcore).
  unfold authenticate_flow.
  rewrite (with_listeners_run trust setup _ s i' _ Hrun Hem).
  destruct s as [i au ph]. cbn [this] in *.
  change (set_this i' (mkSession i au ph)) with (mkSession i' au ph).
  inversion Hcore as [Hl Hr|Hfail Hl Hr|ev Hfail Hev Hl Hr|err Hl Hr|e1 e2 Hl Hr];
    subst l; cbn [foldr listener].
  - (* TRUSTED *)
    cbv [bind ret async try_catch].
    destruct (getiCloudCookies_shape setup (mkSession i' au ph))
      as (l & Hret & Hthis & Hsh & _).
    destruct (getiCloudCookies c setup (mkSession i' au ph)) as [o [i3 a3 ph3]].
    cbn [fst snd this] in Hret, Hthis. subst o i3.
    exists (AUTHENTICATION_STARTED :: TRUSTED :: l). cbn [fst snd this].
    split; [reflexivity|].
    split; [cbn; rewrite Hem, <- app_assoc; reflexivity|].
    split; [apply authenticate_trusted; exact Hsh|].
    cbn [push mfaServer_running]. rewrite <- Hr. split; [auto|].
    intros [H|H]; [exact H|discriminate H].
  - exists [AUTHENTICATION_STARTED; MFA_REQUIRED (mfaServer_port i)].
    cbn. split; [reflexivity|]. split; [exact Hem|].
    split; [apply authenticate_mfa; exact Hfail|].
    rewrite <- Hr. split; auto.
  - exists [AUTHENTICATION_STARTED; MFA_REQUIRED (mfaServer_port i); ev].
    destruct Hev as (e & -> & Hev).
    cbn. split; [reflexivity|]. split; [exact Hem|].
    split; [apply authenticate_mfa_refused; [exact Hfail|exists e; auto]|].
    rewrite <- Hr. split; [auto|]. intros [H|H]; [exact H|discriminate H].
  - exists [AUTHENTICATION_STARTED; ERROR err].
    cbn. split; [reflexivity|]. split; [exact Hem|].
    split; [apply authenticate_failed|].
    rewrite <- Hr. split; [auto|]. intros [H|H]; [exact H|discriminate H].
  - exists [AUTHENTICATION_STARTED; ERROR e1; ERROR e2].
    cbn. split; [reflexivity|]. split; [exact Hem|].
    split; [apply authenticate_failed_twice|].
    rewrite <- Hr. split; [auto|]. intros [H|H]; [exact H|discriminate H].
Qed.

(** The events of [authenticate] and of the listeners it triggers follow
    the order of the flow.  After [AUTHENTICATION_STARTED] comes either
    [TRUSTED] with the events of [getiCloudCookies]; or [MFA_REQUIRED],
    after which the MFA server runs, or, with [failOnMfa], the fatal error
    of that flag; or one error; or, for the statuses 401 and 403, two
    errors.  Nothing is thrown; the MFA server is started by nothing but
    an accepted [MFA_REQUIRED], and never with [failOnMfa]. *)
Theorem authenticate_flow_shape (a : iCloudAuth) (signin trust setup : NetOutcome)
    (s : Session A) :
  validateAccountSecrets a = None ->
  exists l : list Event,
    fst (authenticate_flow c a signin trust setup s) = Returned tt /\
    emitted (this (snd (authenticate_flow c a signin trust setup s))) =
      emitted (this s) ++ l /\
    authenticate_shape (mfaServer_port (this s)) (failOnMfa (this s)) l /\
    (mfaServer_running (this (snd (authenticate_flow c a signin trust setup s))) = true <->
       mfaServer_running (this s) = true \/
       l = [AUTHENTICATION_STARTED; MFA_REQUIRED (mfaServer_port (this s))]) /\
    (failOnMfa (this s) = true ->
       mfaServer_running (this (snd (authenticate_flow c a signin trust setup s))) =
         mfaServer_running (this s)).
Proof.
  intros Hv.
  destruct (authenticate_flow_events a signin trust setup s Hv)
    as (l & Hret & Hem & Hsh & Hrun).
  exists l. split; [exact Hret|]. split; [exact Hem|].
  split; [exact Hsh|]. split; [exact Hrun|].
  intros Hfail.
  destruct (mfaServer_running (this (snd (authenticate_flow c a signin trust setup s))))
    eqn:Hafter.
  - apply proj1 in Hrun. destruct (Hrun eq_refl) as [H|H]; [symmetry; exact H|].
    exfalso. subst l.
    inversion Hsh as [l' Hc Hl|Hf Hl|ev Hf Hev Hl|err Hl|e1 e2 Hl]; congruence.
  - destruct (mfaServer_running (this s)) eqn:Hbefore; [|reflexivity].
    apply proj2 in Hrun. exfalso.
    assert (Hx : false = true) by (apply Hrun; left; reflexivity).
    discriminate Hx.
Qed.

Lemma submitMFA_flow_events (method : MFAMethod) (mfa : string)
    (enter trust setup : NetOutcome) (s : Session A) :
  exists l : list Event,
    fst (submitMFA_flow c method mfa enter trust setup s) = Returned tt /\
    emitted (this (snd (submitMFA_flow c method mfa enter trust setup s))) =
      emitted (this s) ++ l /\
    submit_shape l /\
    mfaServer_running
      (this (snd (submitMFA_flow c method mfa enter trust setup s))) = false /\
    (ICloudProps.accepted (enterSuccessful method) enter = true <->
       In AUTHENTICATED l).
Proof.
  unfold submitMFA_flow.
  destruct (ICloudProps.accepted (enterSuccessful method) enter) eqn:Hacc.
  - rewrite (with_listeners_run trust setup _ s _ [AUTHENTICATED]
               (ICloudProps.submitMFA_accepted method mfa enter (this s) Hacc) eq_refl).
    destruct s as [i au ph]. cbn [this].
    match goal with
    | |- context [set_this ?i' (mkSession i au ph)] =>
        change (set_this i' (mkSession i au ph)) with (mkSession i' au ph);
        set (s1 := mkSession i' au ph)
    end.
    cbn [foldr listener]. cbv [bind ret async try_catch].
    destruct (getTokens_shape trust setup s1) as (l & Hret & Hthis & Hsh).
    destruct (getTokens c trust setup s1) as [o [i3 a3 ph3]].
    cbn [fst snd this] in Hret, Hthis. subst o i3 s1.
    exists (AUTHENTICATED :: l). cbn [fst snd this].
    split; [reflexivity|].
    split; [cbn; rewrite <- app_assoc; reflexivity|].
    split; [apply submit_authenticated; exact Hsh|].
    split; [reflexivity|]. split; [intros _; left; reflexivity|reflexivity].
  - rewrite (with_listeners_run trust setup _ s _ _
               (ICloudProps.submitMFA_failed method mfa enter (this s) Hacc) eq_refl).
    destruct s as [i au ph]. cbn.
    eexists. split; [reflexivity|]. split; [reflexivity|].
    split; [apply submit_failed, fatal_iCloudError_intro|].
    split; [reflexivity|]. split; [discriminate|].
    intros [H|[]]. discriminate H.
Qed.

Lemma getReady_warnings (ws : list Value) (l : list Event) :
  getReady (map HANDLER_EVENT ws ++ l) = getReady l.
Proof. induction ws as [|w ws IH]; [reflexivity|exact IH]. Qed.

Lemma READY_not_in_failed (ws : list Value) (msg : string) (ev : Event) :
  fatal_iCloudError msg ev -> ~ In READY (map HANDLER_EVENT ws ++ [ev]).
Proof.
  intros (e & -> & _) Hin. apply in_app_or in Hin as [Hin|[Hin|[]]].
  - apply in_map_iff in Hin as (w & Hw & _). discriminate Hw.
  - discriminate Hin.
Qed.

(** The promise [authenticate] returns, for a freshly constructed object.
    It stays pending only while the MFA server runs and waits for a code;
    it resolves only at the end of the complete sequence [TRUSTED],
    [ACCOUNT_READY], [READY], in which no error occurs; and when it
    rejects, [READY] is never emitted. *)
Theorem authenticate_flow_ready (a : iCloudAuth) (signin trust setup : NetOutcome)
    (s : Session A) :
  validateAccountSecrets a = None ->
  emitted (this s) = [] ->
  (getReady (emitted (this (snd (authenticate_flow c a signin trust setup s)))) = Pending ->
     failOnMfa (this s) = false /\
     mfaServer_running (this (snd (authenticate_flow c a signin trust setup s))) = true /\
     emitted (this (snd (authenticate_flow c a signin trust setup s))) =
       [AUTHENTICATION_STARTED; MFA_REQUIRED (mfaServer_port (this s))]) /\
  (getReady (emitted (this (snd (authenticate_flow c a signin trust setup s)))) = Resolved ->
     exists ws : list Value,
       emitted (this (snd (authenticate_flow c a signin trust setup s))) =
         [AUTHENTICATION_STARTED; TRUSTED; ACCOUNT_READY]
         ++ map HANDLER_EVENT ws ++ [READY]) /\
  (forall err : Value,
     getReady (emitted (this (snd (authenticate_flow c a signin trust setup s)))) =
       Rejected err ->
     ~ In READY (emitted (this (snd (authenticate_flow c a signin trust setup s))))).
Proof.
  intros Hv Hfresh.
  destruct (authenticate_flow_events a signin trust setup s Hv)
    as (l & _ & Hem & Hsh & Hrun).
  rewrite Hfresh in Hem. cbn [app] in Hem. rewrite Hem. clear Hem.
  inversion Hsh as [l' Hc Hl|Hf Hl|ev Hf Hev Hl|err Hl|e1 e2 Hl]; subst l.
  - inversion Hc as [ev Hev Hl2|l'' Hp Hl2]; subst l'.
    + destruct Hev as (e & -> & _). cbn.
      split; [discriminate|]. split; [discriminate|].
      intros err _ [H|[H|[H|[]]]]; discriminate H.
    + inversion Hp as [ws Hl3|ws ev Hev Hl3]; subst l''.
      * cbn [getReady]. rewrite getReady_warnings. cbn [getReady].
        split; [discriminate|]. split; [|discriminate].
        intros _. exists ws. reflexivity.
      * pose proof (READY_not_in_failed ws _ ev Hev) as Hnot.
        destruct Hev as (e & -> & _).
        cbn [getReady]. rewrite getReady_warnings. cbn [getReady].
        split; [discriminate|]. split; [discriminate|].
        intros err _ [H|[H|[H|H]]]; try discriminate H. exact (Hnot H).
  - cbn. split; [|split; [discriminate|discriminate]].
    intros _. split; [exact Hf|]. split; [|reflexivity].
    apply Hrun. right. reflexivity.
  - destruct Hev as (e & -> & _). cbn.
    split; [discriminate|]. split; [discriminate|].
    intros err _ [H|[H|[H|[]]]]; discriminate H.
  - cbn. split; [discriminate|]. split; [discriminate|].
    intros e _ [H|[H|[]]]; discriminate H.
  - cbn. split; [discriminate|]. split; [discriminate|].
    intros e _ [H|[H|[H|[]]]]; discriminate H.
Qed.

Lemma getReady_pending_app (evs more : list Event) :
  getReady evs = Pending -> getReady (evs ++ more) = getReady more.
Proof.
  induction evs as [|ev evs IH]; [reflexivity|].
  destruct ev; cbn [getReady app]; try exact IH; discriminate.
Qed.

Lemma photos_shape_settles (l : list Event) :
  photos_shape l -> getReady l <> Pending.
Proof.
  intros [ws|ws ev (e & -> & _)]; rewrite getReady_warnings; discriminate.
Qed.

Lemma cookies_shape_settles (l : list Event) :
  cookies_shape l -> getReady l <> Pending.
Proof.
  intros [ev (e & -> & _)|l' Hp]; [discriminate|].
  cbn [getReady]. apply photos_shape_settles. exact Hp.
Qed.

Lemma tokens_shape_settles (l : list Event) :
  tokens_shape l -> getReady l <> Pending.
Proof.
  intros [ev (e & -> & _)|l' Hc]; [discriminate|].
  cbn [getReady]. apply cookies_shape_settles. exact Hc.
Qed.

(** The events of [submitMFA] and of the listeners it triggers: one fatal
    error, or [AUTHENTICATED] followed by the events of [getTokens].
    Nothing is thrown, the MFA server is stopped afterwards,
    [AUTHENTICATED] is emitted exactly when the code was accepted, and a
    promise [ready] that was pending is settled: a submit ends the wait
    for the MFA code either way. *)
Theorem submitMFA_flow_shape (method : MFAMethod) (mfa : string)
    (enter trust setup : NetOutcome) (s : Session A) :
  exists l : list Event,
    fst (submitMFA_flow c method mfa enter trust setup s) = Returned tt /\
    emitted (this (snd (submitMFA_flow c method mfa enter trust setup s))) =
      emitted (this s) ++ l /\
    submit_shape l /\
    mfaServer_running
      (this (snd (submitMFA_flow c method mfa enter trust setup s))) = false /\
    (ICloudProps.accepted (enterSuccessful method) enter = true <->
       In AUTHENTICATED l) /\
    (getReady (emitted (this s)) = Pending ->
       getReady (emitted (this (snd (submitMFA_flow c method mfa enter trust setup s))))
         <> Pending).
Proof.
  destruct (submitMFA_flow_events method mfa enter trust setup s)
    as (l & Hret & Hem & Hsh & Hrun & Hacc).
  exists l. repeat (split; [assumption|]).
  intros Hpending. rewrite Hem, (getReady_pending_app _ _ Hpending).
  destruct Hsh as [ev (e & -> & _)|l' Ht]; [discriminate|].
  cbn [getReady]. apply tokens_shape_settles. exact Ht.
Qed.

(** [getiCloudPhotosReady] emits [READY] exactly when the cloud cookies
    are valid, the photos object exists and its setup resolves; the
    warnings of the setup are forwarded in their order before the last
    event; nothing is thrown. *)
Theorem getiCloudPhotosReady_ready_iff (s : Session A) :
  exists l : list Event,
    getiCloudPhotosReady c s = (Returned tt, set_this (push l (this s)) s) /\
    photos_shape l /\
    (In READY l <->
       validateCloudCookies c (auth s) = None /\ photos s = true /\
       snd (photos_setup c (auth s)) = None) /\
    (validateCloudCookies c (auth s) = None -> photos s = true ->
       exists last : Event,
         l = map HANDLER_EVENT (fst (photos_setup c (auth s))) ++ [last]).
Proof.
  destruct s as [i a ph].
  unfold getiCloudPhotosReady, try_catch. unfold bind at 1. unfold auth_validate.
  unfold bind at 1, get at 1. cbn [auth photos].
  destruct (validateCloudCookies c a) as [e|] eqn:Hv.
  - eexists. split; [reflexivity|].
    split; [apply (photos_failed []), fatal_iCloudError_intro|].
    split; [|discriminate].
    split; [intros [H|[]]; discriminate H|intros (H & _); discriminate H].
  - cbv [ret]. unfold bind at 1, get at 1. cbn [photos].
    destruct ph; cbn [negb].
    + unfold bind at 1. cbv [ret]. unfold bind at 1.
      rewrite photos_run_setup_runs. cbn [auth this set_this].
      destruct (photos_setup c a) as [ws [e|]]; cbn [fst snd].
      * eexists. split; [cbn; rewrite record_event_push, push_push; reflexivity|].
        split; [apply photos_failed, fatal_iCloudError_intro|].
        split; [|intros _ _; eexists; reflexivity].
        split; [|intros (_ & _ & H); discriminate H].
        intros Hin. exfalso.
        exact (READY_not_in_failed ws _ _ (fatal_iCloudError_intro _ e) Hin).
      * exists (map HANDLER_EVENT ws ++ [READY]).
        split; [cbn; rewrite record_event_push, push_push; reflexivity|].
        split; [apply photos_ready|].
        split; [|intros _ _; eexists; reflexivity].
        split; [auto|]. intros _. apply in_or_app. right. left. reflexivity.
    + eexists. split; [reflexivity|].
      split; [apply (photos_failed []), fatal_iCloudError_intro|].
      split; [|discriminate].
      split; [intros [H|[]]; discriminate H|intros (_ & H & _); discriminate H].
Qed.

(** [getiCloudCookies] emits [ACCOUNT_READY] exactly when the account
    tokens are valid, the setup request is answered with a 2XX response
    and that response can be processed; only then is [this.photos] set.
    In every other case one fatal error is emitted and neither
    [this.auth] nor [this.photos] is changed. *)
Theorem getiCloudCookies_account_ready_iff (setup : NetOutcome) (s : Session A) :
  exists l : list Event,
    fst (getiCloudCookies c setup s) = Returned tt /\
    this (snd (getiCloudCookies c setup s)) = push l (this s) /\
    cookies_shape l /\
    (In ACCOUNT_READY l <->
       validateAccountTokens c (auth s) = None /\
       exists r a', axios_result setup = Returned r /\
                    processCloudSetupResponse c r (auth s) = inr a') /\
    (In ACCOUNT_READY l -> photos (snd (getiCloudCookies c setup s)) = true) /\
    (~ In ACCOUNT_READY l ->
       auth (snd (getiCloudCookies c setup s)) = auth s /\
       photos (snd (getiCloudCookies c setup s)) = photos s).
Proof.
  destruct s as [i a ph].
  cbv [getiCloudCookies emit_ACCOUNT_READY async auth_validate auth_process
       try_catch bind get throw ret modify lift emit set_this set_auth
       set_photos this auth photos].
  destruct (validateAccountTokens c a) as [e|] eqn:Hv.
  - eexists. split; [reflexivity|]. split; [reflexivity|].
    split; [apply cookies_failed, fatal_iCloudError_intro|].
    split; [split; [intros [H|[]]; discriminate H|intros (H & _); discriminate H]|].
    split; [intros [H|[]]; discriminate H|intros _; split; reflexivity].
  - rewrite axios_request_result. destruct (axios_result setup) as [r|err].
    + destruct (processCloudSetupResponse c r a) as [e|a'] eqn:Hp.
      * eexists. split; [reflexivity|]. split; [reflexivity|].
        split; [apply cookies_failed, fatal_iCloudError_intro|].
        split; [split; [intros [H|[]]; discriminate H|]|].
        { intros (_ & r' & a' & Hr & Hp'). injection Hr as <-. congruence. }
        split; [intros [H|[]]; discriminate H|intros _; split; reflexivity].
      * match goal with
        | |- context [getiCloudPhotosReady c ?s2] =>
            destruct (getiCloudPhotosReady_shape s2) as (l & Heq & Hsh & _);
            rewrite Heq
        end.
        exists (ACCOUNT_READY :: l). cbn.
        split; [reflexivity|].
        split; [rewrite record_event_push, push_push; reflexivity|].
        split; [apply cookies_ready; exact Hsh|].
        split; [split; [intros _; split; [reflexivity|eauto]|intros _; left; reflexivity]|].
        split; [reflexivity|]. intros H. exfalso. apply H. left. reflexivity.
    + eexists. split; [reflexivity|]. split; [reflexivity|].
      split; [apply cookies_failed, fatal_iCloudError_intro|].
      split; [split; [intros [H|[]]; discriminate H|]|].
      { intros (_ & r' & a' & Hr & _). discriminate Hr. }
      split; [intros [H|[]]; discriminate H|intros _; split; reflexivity].
Qed.

(** [getTokens] emits [TRUSTED] exactly when the auth secrets are valid,
    the trust request is answered with a 2XX response and the account
    tokens of that response can be processed; in every other case one
    fatal error is emitted and [this.auth] is not changed. *)
Theorem getTokens_trusted_iff (trust setup : NetOutcome) (s : Session A) :
  exists l : list Event,
    fst (getTokens c trust setup s) = Returned tt /\
    this (snd (getTokens c trust setup s)) = push l (this s) /\
    tokens_shape l /\
    (In TRUSTED l <->
       validateAuthSecrets c (auth s) = None /\
       exists r a', axios_result trust = Returned r /\
                    processAccountTokens c r (auth s) = inr a') /\
    (~ In TRUSTED l ->
       auth (snd (getTokens c trust setup s)) = auth s /\
       photos (snd (getTokens c trust setup s)) = photos s).
Proof.
  destruct s as [i a ph].
  cbv [getTokens emit_TRUSTED async auth_validate auth_process
       try_catch bind get throw ret modify lift emit set_this set_auth
       set_photos this auth photos].
  destruct (validateAuthSecrets c a) as [e|] eqn:Hv.
  - eexists. split; [reflexivity|]. split; [reflexivity|].
    split; [apply tokens_failed, fatal_iCloudError_intro|].
    split; [split; [intros [H|[]]; discriminate H|intros (H & _); discriminate H]|].
    intros _; split; reflexivity.
  - rewrite axios_request_result. destruct (axios_result trust) as [r|err].
    + destruct (processAccountTokens c r a) as [e|a'] eqn:Hp.
      * eexists. split; [reflexivity|]. split; [reflexivity|].
        split; [apply tokens_failed, fatal_iCloudError_intro|].
        split; [split; [intros [H|[]]; discriminate H|]|intros _; split; reflexivity].
        intros (_ & r' & a' & Hr & Hp'). injection Hr as <-. congruence.
      * match goal with
        | |- context [getiCloudCookies c setup ?s2] =>
            destruct (getiCloudCookies_shape setup s2) as (l & Hret & Hthis & Hsh & _);
            destruct (getiCloudCookies c setup s2) as [o s3]
        end.
        destruct s3 as [i3 a3 ph3]. cbn [fst snd this] in Hret, Hthis. subst o i3.
        exists (TRUSTED :: l). cbn.
        split; [reflexivity|].
        split; [rewrite record_event_push, push_push; reflexivity|].
        split; [apply tokens_trusted; exact Hsh|].
        split; [split; [intros _; split; [reflexivity|eauto]|intros _; left; reflexivity]|].
        intros H. exfalso. apply H. left. reflexivity.
    + eexists. split; [reflexivity|]. split; [reflexivity|].
      split; [apply tokens_failed, fatal_iCloudError_intro|].
      split; [split; [intros [H|[]]; discriminate H|]|intros _; split; reflexivity].
      intros (_ & r' & a' & Hr & _). discriminate Hr.
Qed.

Lemma authenticate_rejected_credentials (a : iCloudAuth) (r : Response) (i : iCloud) :
  validateAccountSecrets a = None ->
  status r = 401%Z \/ status r = 403%Z ->
  exists i' : iCloud,
    authenticate a (Responded r) i = (Returned tt, i') /\
    emitted i' =
      emitted i ++
        [ AUTHENTICATION_STARTED;
          ERROR (if (status r =? 401)%Z then ICloudProps.BadCredentials r
                 else ICloudProps.UnknownUser r);
          ERROR (ICloudProps.UnexpectedHTTP r) ].
Proof.
  intros Hv Hs. destruct a as [v p]. cbn in Hv. subst v.
  ICloudProps.run_method. cbn [validateAccountSecrets].
  rewrite ICloudProps.axios_request_rejects
    by (destruct Hs as [Hs|Hs]; rewrite Hs; reflexivity).
  unfold ICloudProps.UnexpectedHTTP, ICloudProps.BadCredentials,
    ICloudProps.UnknownUser, ICloudProps.rejection.
  destruct Hs as [Hs|Hs]; rewrite Hs; eexists; (split; [reflexivity|]);
    cbn; rewrite <- !app_assoc; reflexivity.
Qed.

(** For a signin response of status 401 or 403 the promise that
    [authenticate] returns rejects with the error of the credentials, the
    first of the two errors emitted: the unexpected-HTTP-code error that
    follows does not reach the caller of [authenticate]. *)
Theorem authenticate_flow_rejects_with_first_error
    (a : iCloudAuth) (r : Response) (trust setup : NetOutcome) (s : Session A) :
  validateAccountSecrets a = None ->
  emitted (this s) = [] ->
  (status r = 401%Z ->
     getReady (emitted (this (snd (authenticate_flow c a (Responded r) trust setup s)))) =
       Rejected (ICloudProps.BadCredentials r)) /\
  (status r = 403%Z ->
     getReady (emitted (this (snd (authenticate_flow c a (Responded r) trust setup s)))) =
       Rejected (ICloudProps.UnknownUser r)).
Proof.
  intros Hv Hfresh.
  assert (H : status r = 401%Z \/ status r = 403%Z ->
            getReady (emitted (this (snd (authenticate_flow c a (Responded r) trust setup s)))) =
              Rejected (if (status r =? 401)%Z then ICloudProps.BadCredentials r
                        else ICloudProps.UnknownUser r)).
  { intros Hs.
    destruct (authenticate_rejected_credentials a r (this s) Hv Hs) as (i' & Hrun & Hem).
    unfold authenticate_flow.
    rewrite (with_listeners_run trust setup _ s i' _ Hrun Hem).
    destruct s as [i au ph]. cbn [foldr listener]. cbn.
    cbn [this] in Hem, Hfresh. rewrite Hem, Hfresh. reflexivity. }
  split; intros Hs.
  - rewrite H by (left; exact Hs). rewrite Hs. reflexivity.
  - rewrite H by (right; exact Hs). rewrite Hs. reflexivity.
Qed.

(** The complete sequence without MFA.  When the signin is answered with
    status 200 and every later step succeeds, the events are
    [AUTHENTICATION_STARTED], [TRUSTED], [ACCOUNT_READY], the warnings of
    the photos setup and [READY]; the secrets of the signin response are
    stored, [this.auth] is in the state the setup response left it in, and
    [this.photos] is set. *)
Theorem authenticate_flow_complete
    (a : iCloudAuth) (r r2 : Response) (trust : NetOutcome) (s : Session A)
    (secrets : AuthSecrets) (a2 : A) (ws : list Value) :
  validateAccountSecrets a = None ->
  status r = 200%Z ->
  processAuthSecrets a r = inr secrets ->
  validateAccountTokens c (auth s) = None ->
  ((200 <=? status r2)%Z && (status r2 <? 300)%Z) = true ->
  processCloudSetupResponse c r2 (auth s) = inr a2 ->
  validateCloudCookies c a2 = None ->
  photos_setup c a2 = (ws, None) ->
  authenticate_flow c a (Responded r) trust (Responded r2) s =
    (Returned tt,
     mkSession
       (push ([AUTHENTICATION_STARTED; TRUSTED; ACCOUNT_READY]
              ++ map HANDLER_EVENT ws ++ [READY])
             (set_iCloudAuthSecrets secrets (this s)))
       a2 true).
Proof.
  intros Hv Hs Hp Hvt H2xx Hpc Hvc Hps.
  unfold authenticate_flow.
  rewrite (with_listeners_run trust (Responded r2) _ s _
             [AUTHENTICATION_STARTED; TRUSTED]
             (ICloudProps.authenticate_200 a r (this s) secrets Hv Hs Hp))
    by (cbn; rewrite <- app_assoc; reflexivity).
  destruct s as [i au ph]. cbn [this auth] in *.
  cbn [foldr listener].
  cbv [async getiCloudCookies emit_ACCOUNT_READY auth_validate auth_process
       try_catch bind get throw ret modify lift emit set_this set_auth
       set_photos this auth photos].
  rewrite Hvt, axios_request_result. cbn [axios_result]. rewrite H2xx, Hpc.
  unfold getiCloudPhotosReady, try_catch. unfold bind at 1. unfold auth_validate.
  unfold bind at 1, get at 1. cbn [auth]. rewrite Hvc.
  cbv [ret]. unfold bind at 1, get at 1. cbn [photos negb].
  unfold bind at 1. cbv [ret]. unfold bind at 1.
  rewrite photos_run_setup_runs. cbn [auth this set_this]. rewrite Hps.
  cbn [fst snd]. cbn.
  rewrite !record_event_push, !push_push. unfold push. cbn.
  rewrite <- !app_assoc. reflexivity.
Qed.

(** With invalid account secrets [authenticate] throws the validation
    error right after [AUTHENTICATION_STARTED]: no request is sent, no
    listener runs and no [ERROR] is emitted, so that a pending promise
    [ready] stays pending. *)
Theorem authenticate_flow_invalid_account_secrets
    (a : iCloudAuth) (e : JSError) (signin trust setup : NetOutcome) (s : Session A) :
  validateAccountSecrets a = Some e ->
  authenticate_flow c a signin trust setup s =
    (Thrown e, set_this (push [AUTHENTICATION_STARTED] (this s)) s) /\
  (getReady (emitted (this s)) = Pending ->
     getReady (emitted (this (snd (authenticate_flow c a signin trust setup s)))) =
       Pending).
Proof.
  intros Hv.
  assert (Hrun : authenticate_flow c a signin trust setup s =
                 (Thrown e, set_this (push [AUTHENTICATION_STARTED] (this s)) s)).
  { destruct a as [v p]. cbn in Hv. subst v. destruct s as [i au ph].
    reflexivity. }
  split; [exact Hrun|]. intros Hpending. rewrite Hrun.
  destruct s as [i au ph]. cbn [snd this set_this push emitted] in *.
  rewrite (getReady_pending_app _ _ Hpending). reflexivity.
Qed.

End Flow.

(** Collaborators without state of their own, for which every step
    succeeds and the photos setup emits no warning. *)
Definition succeeding : Collaborators unit :=
  mkCollaborators (fun _ => None) (fun _ _ => inr tt) (fun _ => None)
                  (fun _ _ => inr tt) (fun _ => None) (fun _ => ([], None)).

Definition freshSession : Session unit :=
  mkSession (ICloudProps.new_iCloud false 80) tt false.

Lemma authenticate_flow_shape_witness :
  exists l : list Event,
    emitted (this (snd (authenticate_flow succeeding ICloudProps.fixedAuth
                          (Responded (mkResponse 409 ∅ None None))
                          (NoResponse "") (NoResponse "") freshSession))) =
      [] ++ l /\
    authenticate_shape 80 false l.
Proof.
  destruct (authenticate_flow_shape unit succeeding ICloudProps.fixedAuth
              (Responded (mkResponse 409 ∅ None None))
              (NoResponse "") (NoResponse "") freshSession eq_refl)
    as (l & _ & Hem & Hsh & _).
  exists l. split; [exact Hem|exact Hsh].
Defined.

Lemma authenticate_flow_ready_witness :
  ~ In READY
      (emitted (this (snd (authenticate_flow succeeding ICloudProps.fixedAuth
                             (NoResponse "timeout")
                             (NoResponse "") (NoResponse "") freshSession)))).
Proof.
  apply (proj2 (proj2 (authenticate_flow_ready unit succeeding ICloudProps.fixedAuth
                         (NoResponse "timeout") (NoResponse "") (NoResponse "")
                         freshSession eq_refl eq_refl))
           (VError (ICPS (addCause
              (iCloudError "No response received during authentication")
              (AxiosError "timeout" None))))).
  reflexivity.
Defined.

Lemma authenticate_flow_rejects_with_first_error_witness :
  getReady (emitted (this (snd (authenticate_flow succeeding ICloudProps.fixedAuth
                                  (Responded (mkResponse 401 ∅ None None))
                                  (NoResponse "") (NoResponse "") freshSession)))) =
    Rejected (ICloudProps.BadCredentials (mkResponse 401 ∅ None None)).
Proof.
  apply (proj1 (authenticate_flow_rejects_with_first_error unit succeeding
                  ICloudProps.fixedAuth (mkResponse 401 ∅ None None)
                  (NoResponse "") (NoResponse "") freshSession eq_refl eq_refl)).
  reflexivity.
Defined.

Lemma authenticate_flow_complete_witness :
  authenticate_flow succeeding ICloudProps.fixedAuth
    (Responded (mkResponse 200 ∅ None None)) (NoResponse "")
    (Responded (mkResponse 200 ∅ None None)) freshSession =
    (Returned tt,
     mkSession
       (push ([AUTHENTICATION_STARTED; TRUSTED; ACCOUNT_READY]
              ++ map HANDLER_EVENT [] ++ [READY])
             (set_iCloudAuthSecrets (mkAuthSecrets "session" "scnt" "aasp")
                                    (this freshSession)))
       tt true).
Proof.
  apply (authenticate_flow_complete unit succeeding ICloudProps.fixedAuth
           (mkResponse 200 ∅ None None) (mkResponse 200 ∅ None None)
           (NoResponse "") freshSession (mkAuthSecrets "session" "scnt" "aasp")
           tt []); reflexivity.
Defined.

Lemma authenticate_flow_invalid_account_secrets_witness :
  authenticate_flow succeeding
    (mkiCloudAuth (Some (ICPS (iCloudAuthError "No username"))) (fun _ => inr (mkAuthSecrets "" "" "")))
    (Responded (mkResponse 200 ∅ None None)) (NoResponse "") (NoResponse "")
    freshSession =
    (Thrown (ICPS (iCloudAuthError "No username")),
     set_this (push [AUTHENTICATION_STARTED] (this freshSession)) freshSession).
Proof.
  apply (authenticate_flow_invalid_account_secrets unit succeeding
           (mkiCloudAuth (Some (ICPS (iCloudAuthError "No username")))
                         (fun _ => inr (mkAuthSecrets "" "" "")))
           (ICPS (iCloudAuthError "No username"))
           (Responded (mkResponse 200 ∅ None None)) (NoResponse "") (NoResponse "")
           freshSession).
  reflexivity.
Defined.

(** *** Failures of [authenticate] itself *)

(** Without a response [authenticate] emits one fatal error that carries
    the error of the request; when the secrets of a 200 or 409 response
    cannot be processed it emits the error of the processing itself, not
    wrapped.  In both cases nothing else is emitted, the stored secrets are
    kept and the MFA server is left alone. *)
Theorem authenticate_failures (a : iCloudAuth) (i : iCloud) :
  validateAccountSecrets a = None ->
  (forall m : string,
     authenticate a (NoResponse m) i =
       (Returned tt,
        push [ AUTHENTICATION_STARTED;
               ERROR (VError (ICPS
                 (addCause (iCloudError "No response received during authentication")
                           (AxiosError m None)))) ] i)) /\
  (forall (r : Response) (e : JSError),
     status r = 200%Z \/ status r = 409%Z ->
     processAuthSecrets a r = inl e ->
     authenticate a (Responded r) i =
       (Returned tt, push [AUTHENTICATION_STARTED; ERROR (VError e)] i)).
Proof.
  intros Hv. destruct a as [v p]. cbn in Hv. subst v. split.
  - intros m. cbn. rewrite !record_event_push, !push_push. reflexivity.
  - intros r e Hs Hp. cbn [processAuthSecrets] in Hp.
    ICloudProps.run_method. cbn [validateAccountSecrets processAuthSecrets].
    destruct Hs as [Hs|Hs].
    + rewrite ICloudProps.axios_request_resolves by (rewrite Hs; reflexivity).
      rewrite Hs, Hp. cbn. rewrite !record_event_push, !push_push. reflexivity.
    + rewrite ICloudProps.axios_request_rejects by (rewrite Hs; reflexivity).
      cbv [ICloudProps.rejection]. cbv beta iota. rewrite Hs, Hp.
      cbn. rewrite !record_event_push, !push_push. reflexivity.
Qed.

Lemma authenticate_failures_witness :
  authenticate ICloudProps.bareAuth (Responded (mkResponse 200 ∅ None None))
               (ICloudProps.new_iCloud false 80) =
    (Returned tt,
     push [ AUTHENTICATION_STARTED;
            ERROR (VError (ICPS (iCloudAuthError "Unable to process auth response"))) ]
          (ICloudProps.new_iCloud false 80)).
Proof.
  apply (proj2 (authenticate_failures ICloudProps.bareAuth
                  (ICloudProps.new_iCloud false 80) eq_refl)
           (mkResponse 200 ∅ None None)).
  - left. reflexivity.
  - reflexivity.
Defined.

(** *** [resendMFA] and the promise [ready] *)

Lemma getReady_app_warning (evs : list Event) (w : Value) :
  getReady (evs ++ [HANDLER_EVENT w]) = getReady evs.
Proof.
  induction evs as [|ev evs IH]; [reflexivity|].
  destruct ev; cbn [getReady app]; try exact IH; reflexivity.
Qed.

(** A resend never settles the promise [ready], whether it succeeds or
    fails, and never throws: the wait for the MFA code goes on. *)
Theorem resendMFA_never_settles (method : MFAMethod) (net : NetOutcome) (i : iCloud) :
  fst (resendMFA method net i) = Returned tt /\
  getReady (emitted (snd (resendMFA method net i))) = getReady (emitted i) /\
  mfaServer_running (snd (resendMFA method net i)) = mfaServer_running i.
Proof.
  destruct (ICloudProps.accepted (resendSuccessful method) net) eqn:Hacc.
  - destruct net as [m|r]; cbn in Hacc; [discriminate|].
    apply andb_true_iff in Hacc as [H2xx Hok].
    ICloudProps.run_method.
    rewrite ICloudProps.axios_request_resolves by exact H2xx.
    rewrite Hok. cbn [negb].
    destruct (isSMS method || isVoice method).
    + destruct (data_trustedPhoneNumber r); cbn;
        rewrite ?getReady_app_warning; repeat split.
    + destruct (isDevice method); cbn; repeat split.
  - rewrite ICloudProps.resendMFA_failed by exact Hacc. cbn.
    rewrite getReady_app_warning. repeat split.
Qed.

End ICloudFlowProps.
